(** * WeatherApi: a shallow embedding of [WeatherApi.py]

    The client caches the weather of up to ten cities.  The embedding keeps
    the shape of the Python source: the methods of [WeatherApi] are
    computations in a state-and-exception monad over the client object and
    a log of the HTTP requests it has sent; the outside world (the wall
    clock read by [datetime.now()] and the two HTTP endpoints reached by
    [requests.get]) is an oracle the computations are run against. *)

From Stdlib Require Import ZArith List String Ascii Bool Lia QArith Floats.
Import ListNotations.

Local Open Scope Z_scope.

(** ** Python values used by the client *)

(** A Python [str] is a [string]: a character is read as its code point,
    and the model covers the code points below 256. *)

(** [str.isspace] on one character: the code points below 256 that Python
    counts as white space (TAB, LF, VT, FF, CR, FS, GS, RS, US, SPACE, NEL,
    NBSP). *)
Definition isspace (c : ascii) : bool :=
  let n := N_of_ascii c in
  ((9 <=? n) && (n <=? 13) || (28 <=? n) && (n <=? 32)
   || (n =? 133) || (n =? 160))%N.

(** [str.lstrip()], [str.rstrip()] and [str.strip()] with no argument. *)
Fixpoint lstrip (s : string) : string :=
  match s with
  | EmptyString => EmptyString
  | String c r => if isspace c then lstrip r else s
  end.

Fixpoint rstrip (s : string) : string :=
  match s with
  | EmptyString => EmptyString
  | String c r =>
      match rstrip r with
      | EmptyString => if isspace c then EmptyString else String c EmptyString
      | r' => String c r'
      end
  end.

Definition strip (s : string) : string := rstrip (lstrip s).

(** Truth value of a [str]: the empty string is falsy. *)
Definition str_truthy (s : string) : bool :=
  match s with EmptyString => false | _ => true end.

(** A [datetime], as the number of microseconds since the epoch (the
    resolution of Python's [datetime]); a [timedelta] is a difference of
    two of them. *)
Definition datetime := Z.
Definition timedelta := Z.

(** [timedelta.total_seconds()].  Python computes this quotient, and the
    division by 60 that follows it, in binary64; both are taken exactly
    here.  The comparisons of the source are against 10 minutes, where the
    two agree: 600000000 microseconds give exactly 600.0 and 10.0, and
    rounding is monotone and far finer than the one-microsecond step of a
    [timedelta]. *)
Definition total_seconds (d : timedelta) : Q := d # 1000000.

Definition Qltb (x y : Q) : bool := negb (Qle_bool y x).

(** The weather payload: a JSON object handed through as it is; [{}] is
    the empty one. *)
Definition Dict := list (string * string).
Definition empty_dict : Dict := [].

Inductive Behaviors := POLLING | ON_DEMAND.

Definition Behaviors_eqb (a b : Behaviors) : bool :=
  match a, b with
  | POLLING, POLLING | ON_DEMAND, ON_DEMAND => true
  | _, _ => false
  end.

(** The dataclass [City]. *)
Record City := mkCity {
  city_name : string;
  lat : float;
  lon : float;
  weather_data : Dict;
  created_datetime : datetime
}.

(** The exceptions the client raises or lets through. *)
Inductive exn :=
| ValueError_invalid_parameter            (* "Invalid parameter" *)
| ValueError_invalid_api_response (status_code : Z)
| ValueError_not_in_list                  (* list.remove(x): x not in list *)
| RuntimeError_api_key_exists             (* "Api key already exists" *)
| RuntimeError_failed_coordinates         (* "Failed to get coordinates" *)
| RuntimeError_failed_weather             (* "Failed to get weather data" *)
| RequestException                        (* requests.RequestException *)
| MalformedGeocodeJson.                   (* KeyError, IndexError, TypeError *)

Inductive exn_class := ValueError | RuntimeError | RequestError | LookupError.

Definition class_of (e : exn) : exn_class :=
  match e with
  | ValueError_invalid_parameter | ValueError_invalid_api_response _
  | ValueError_not_in_list => ValueError
  | RuntimeError_api_key_exists | RuntimeError_failed_coordinates
  | RuntimeError_failed_weather => RuntimeError
  | RequestException => RequestError
  | MalformedGeocodeJson => LookupError
  end.

Inductive result (A : Type) :=
| Ret (a : A)
| Raise (e : exn).
Arguments Ret {A} a.
Arguments Raise {A} e.

(** ** The outside world *)

(** A URL passed to [requests.get], by endpoint and query parameters. *)
Inductive Request :=
| GeoRequest (q : string) (appid : string)
| WeatherRequest (lat lon : float) (appid : string).

(** What [requests.get] gives back: it raises a [RequestException], or it
    returns a response with a status code and a body; [json = None] is a
    body [response.json()] cannot decode (it raises a [RequestException]
    too). *)
Inductive http_result (body : Type) :=
| Transport_failure
| Response (status_code : Z) (json : option body).
Arguments Transport_failure {body}.
Arguments Response {body} status_code json.

(** The decoded body of the geocoding endpoint, by what the source does
    with it: a falsy value (no match), a list whose first element has
    numeric ["lon"] and ["lat"], or anything else. *)
Inductive geo_json :=
| GeoNoMatch
| GeoMatch (lon lat : float)
| GeoMalformed.

(** The world a client runs in.  [clock k] is what the [k]-th call of
    [datetime.now()] returns; [geo_endpoint k] and [weather_endpoint k]
    answer the request sent as the [k]-th one (counting from 0). *)
Record World := mkWorld {
  clock : nat -> datetime;
  geo_endpoint : nat -> string -> string -> http_result geo_json;
  weather_endpoint : nat -> float -> float -> string -> http_result Dict
}.

(** ** The client object and the monad of its methods *)

(** The attributes of a [WeatherApi] instance (the validator is
    stateless and folded into the methods). *)
Record WeatherApi := mkWeatherApi {
  api_key : string;
  cities : list City;
  behavior : Behaviors
}.

(** The state a method runs in: the object [self], the number of
    [datetime.now()] calls made so far and the requests sent so far,
    oldest first. *)
Record State := mkState {
  self : WeatherApi;
  ticks : nat;
  sent : list Request
}.

(** A method: it returns or raises, and leaves a state either way (an
    exception does not undo mutations). *)
Definition M (A : Type) := State -> result A * State.

Definition ret {A} (a : A) : M A := fun s => (Ret a, s).
Definition raise {A} (e : exn) : M A := fun s => (Raise e, s).
Definition bind {A B} (m : M A) (k : A -> M B) : M B :=
  fun s => match m s with
           | (Ret a, s') => k a s'
           | (Raise e, s') => (Raise e, s')
           end.

Notation "x <- m ;; k" := (bind m (fun x => k))
  (at level 61, m at next level, right associativity).
Notation "m ;;; k" := (bind m (fun _ => k))
  (at level 61, right associativity).

(** [try: m except requests.RequestException: raise e]. *)
Definition except_RequestException {A} (m : M A) (e : exn) : M A :=
  fun s => match m s with
           | (Raise RequestException, s') => (Raise e, s')
           | r => r
           end.

Definition lift {A} (r : result A) : M A := fun s => (r, s).

Definition get_self : M WeatherApi := fun s => (Ret (self s), s).

Definition set_cities (l : list City) : M unit :=
  fun s => (Ret tt,
            mkState (mkWeatherApi (api_key (self s)) l (behavior (self s)))
                    (ticks s) (sent s)).

Section Methods.

Variable w : World.

(** [datetime.now()] *)
Definition datetime_now : M datetime :=
  fun s => (Ret (clock w (ticks s)), mkState (self s) (S (ticks s)) (sent s)).

(** [requests.get(url, timeout=10)] on each endpoint. *)
Definition requests_get_geo (q appid : string) : M (Z * option geo_json) :=
  fun s =>
    let s' := mkState (self s) (ticks s) (sent s ++ [GeoRequest q appid]) in
    match geo_endpoint w (List.length (sent s)) q appid with
    | Transport_failure => (Raise RequestException, s')
    | Response code body => (Ret (code, body), s')
    end.

Definition requests_get_weather (lat lon : float) (appid : string)
  : M (Z * option Dict) :=
  fun s =>
    let s' := mkState (self s) (ticks s)
                      (sent s ++ [WeatherRequest lat lon appid]) in
    match weather_endpoint w (List.length (sent s)) lat lon appid with
    | Transport_failure => (Raise RequestException, s')
    | Response code body => (Ret (code, body), s')
    end.

(** [response.json()] *)
Definition response_json {A} (body : option A) : M A :=
  match body with
  | Some d => ret d
  | None => raise RequestException
  end.

(** *** [WeatherApiValidator] *)

Definition is_valid_parameter (param : string) : result bool :=
  if negb (str_truthy param) || String.eqb (strip param) EmptyString
  then Raise ValueError_invalid_parameter
  else Ret true.

Definition is_valid_status_code_response (status_code : Z) : result bool :=
  if negb (status_code =? 200)
  then Raise (ValueError_invalid_api_response status_code)
  else Ret true.

(** *** [WeatherApi] *)

Definition get_cities : M (list City) :=
  fun s => (Ret (cities (self s)), s).

(** [self.cities = [city for city in self.cities
                    if city.city_name != city_name]] *)
Definition remove_city_by_name (name : string) : M unit :=
  cs <- get_cities ;;
  set_cities (filter (fun city => negb (String.eqb (city_name city) name)) cs).

(** The dictionary [get_city_lon_lat] returns: [{}] is [None], and
    [{"lon": x, "lat": y}] is [Some (x, y)]. *)
Definition get_city_lon_lat (name : string) : M (option (float * float)) :=
  lift (is_valid_parameter name) ;;;
  me <- get_self ;;
  except_RequestException
    (response <- requests_get_geo name (api_key me) ;;
     lift (is_valid_status_code_response (fst response)) ;;;
     data <- response_json (snd response) ;;
     match data with
     | GeoNoMatch => ret None
     | GeoMatch x y => ret (Some (x, y))
     | GeoMalformed => raise MalformedGeocodeJson
     end)
    RuntimeError_failed_coordinates.

Definition _send_request_to_get_weather_city_json
    (name : string) (lat lon : float) : M Dict :=
  lift (is_valid_parameter name) ;;;
  me <- get_self ;;
  except_RequestException
    (response <- requests_get_weather lat lon (api_key me) ;;
     lift (is_valid_status_code_response (fst response)) ;;;
     response_json (snd response))
    RuntimeError_failed_weather.

(** [(current_time - city.created_datetime).total_seconds() / 60] *)
Definition time_diff (current_time : datetime) (city : City) : Q :=
  Qdiv (total_seconds (current_time - created_datetime city)) (inject_Z 60).

(** Assignment to the attributes of the [i]-th object of a list. *)
Fixpoint list_set {A} (i : nat) (x : A) (l : list A) : list A :=
  match l, i with
  | [], _ => []
  | _ :: r, O => x :: r
  | y :: r, S j => y :: list_set j x r
  end.

Definition set_city (i : nat) (c : City) : M unit :=
  cs <- get_cities ;;
  set_cities (list_set i c cs).

(** The loop of [update_cities_cache]; [todo] is what is left of
    [self.cities] from index [i] on.  The loop assigns to the attributes of
    the object it has just read and to nothing else, so reading the
    entries from the list as it was when the loop started is reading them
    from the list as it is. *)
Fixpoint update_cities_loop (current_time : datetime) (i : nat)
    (todo : list City) : M unit :=
  match todo with
  | [] => ret tt
  | city :: rest =>
      (if Qltb (inject_Z 10) (time_diff current_time city) then
         data <- _send_request_to_get_weather_city_json
                   (city_name city) (lat city) (lon city) ;;
         set_city i (mkCity (city_name city) (lat city) (lon city)
                            data current_time)
       else ret tt) ;;;
      update_cities_loop current_time (S i) rest
  end.

Definition update_cities_cache : M unit :=
  current_time <- datetime_now ;;
  cs <- get_cities ;;
  update_cities_loop current_time 0 cs.

(** [x == 0] for a [City] [x]: the [__eq__] a dataclass generates answers
    NotImplemented for an object of another class, [int.__eq__] does the
    same, and Python falls back to identity. *)
Definition City_eq_int (c : City) (n : Z) : bool := false.

(** [list.remove(n)] on a list of [City] objects, for an [int] [n]: it
    drops the first element equal to [n]; [None] is ValueError. *)
Fixpoint list_remove (n : Z) (l : list City) : option (list City) :=
  match l with
  | [] => None
  | c :: r =>
      if City_eq_int c n then Some r
      else option_map (cons c) (list_remove n r)
  end.

Definition cities_remove (n : Z) : M unit :=
  cs <- get_cities ;;
  match list_remove n cs with
  | Some cs' => set_cities cs'
  | None => raise ValueError_not_in_list
  end.

Definition cities_append (c : City) : M unit :=
  cs <- get_cities ;;
  set_cities (cs ++ [c]).

(** The test of the first loop of [get_and_cache_weather_city]. *)
Definition name_fresh (name : string) (current_time : datetime) (city : City)
  : bool :=
  String.eqb (city_name city) name
  && Qltb (time_diff current_time city) (inject_Z 10).

(** The test of its second loop. *)
Definition name_coords_fresh (name : string) (x y : float)
    (current_time : datetime) (city : City) : bool :=
  String.eqb (city_name city) name
  && PrimFloat.eqb (lon city) x
  && PrimFloat.eqb (lat city) y
  && Qltb (time_diff current_time city) (inject_Z 10).

Definition get_and_cache_weather_city (name : string) : M Dict :=
  lift (is_valid_parameter name) ;;;
  me <- get_self ;;
  (if Behaviors_eqb (behavior me) POLLING
   then update_cities_cache else ret tt) ;;;
  current_time <- datetime_now ;;
  cs <- get_cities ;;
  match find (name_fresh name current_time) cs with
  | Some city => ret (weather_data city)
  | None =>
      lon_lat <- get_city_lon_lat name ;;
      match lon_lat with
      | None => ret empty_dict
      | Some (lon', lat') =>
          cs <- get_cities ;;
          match find (name_coords_fresh name lon' lat' current_time) cs with
          | Some city => ret (weather_data city)
          | None =>
              data <- _send_request_to_get_weather_city_json name lat' lon' ;;
              cs <- get_cities ;;
              (if (9 <? List.length cs)%nat
               then cities_remove 0 else ret tt) ;;;
              t <- datetime_now ;;
              cities_append (mkCity name lat' lon' data t) ;;;
              ret data
          end
      end
  end.

(** Lines 90 to 117 of the source: what [get_and_cache_weather_city]
    does once the name is validated and the polling refresh is done. *)
Definition lookup_or_fetch (name : string) : M Dict :=
  current_time <- datetime_now ;;
  cs <- get_cities ;;
  match find (name_fresh name current_time) cs with
  | Some city => ret (weather_data city)
  | None =>
      lon_lat <- get_city_lon_lat name ;;
      match lon_lat with
      | None => ret empty_dict
      | Some (lon', lat') =>
          cs <- get_cities ;;
          match find (name_coords_fresh name lon' lat' current_time) cs with
          | Some city => ret (weather_data city)
          | None =>
              data <- _send_request_to_get_weather_city_json name lat' lon' ;;
              cs <- get_cities ;;
              (if (9 <? List.length cs)%nat
               then cities_remove 0 else ret tt) ;;;
              t <- datetime_now ;;
              cities_append (mkCity name lat' lon' data t) ;;;
              ret data
          end
      end
  end.

End Methods.

(** ** The registry of clients *)

(** The class attribute [WeatherApi.weather_api_cache] holds references
    to the live clients.  [heap] is the store of client objects, by
    address; the registry lists addresses. *)
Record Process := mkProcess {
  heap : list WeatherApi;
  weather_api_cache : list nat
}.

(** [cached_api.api_key == api_key] for a registered address. *)
Definition has_api_key (p : Process) (key : string) (a : nat) : bool :=
  match nth_error (heap p) a with
  | Some o => String.eqb (api_key o) key
  | None => false
  end.

(** [WeatherApi(api_key, behavior)]: the address of the new client, or
    the exception of [__init__]; the object of a failed construction is
    unreachable and is not kept. *)
Definition __init__ (key : string) (b : Behaviors) (p : Process)
  : result nat * Process :=
  if existsb (has_api_key p key) (weather_api_cache p)
  then (Raise RuntimeError_api_key_exists, p)
  else
    let a := List.length (heap p) in
    (Ret a, mkProcess (heap p ++ [mkWeatherApi key [] b])
                      (weather_api_cache p ++ [a])).

(** [list.remove(obj)] on the registry: clients compare by identity. *)
Fixpoint remove_addr (a : nat) (l : list nat) : option (list nat) :=
  match l with
  | [] => None
  | b :: r => if Nat.eqb b a then Some r
              else option_map (cons b) (remove_addr a r)
  end.

Definition delete_weather_api_cache_obj (a : nat) (p : Process)
  : result unit * Process :=
  match remove_addr a (weather_api_cache p) with
  | Some l => (Ret tt, mkProcess (heap p) l)
  | None => (Raise ValueError_not_in_list, p)
  end.

(** * Vocabulary of the properties *)

(** Empty or made of white space only. *)
Fixpoint whitespace_only (s : string) : bool :=
  match s with
  | EmptyString => true
  | String c r => isspace c && whitespace_only r
  end.

(** A duration of [n] minutes. *)
Definition minutes (n : Z) : timedelta := n * 60000000.

Ltac munfold :=
  unfold bind, ret, raise, lift, get_self, get_cities, set_cities,
    set_city, cities_append, cities_remove, datetime_now,
    except_RequestException, response_json, requests_get_geo,
    requests_get_weather, is_valid_status_code_response.

(** The attributes of a state, for short. *)
Definition cache (s : State) : list City := cities (self s).
Definition key (s : State) : string := api_key (self s).
Definition mode (s : State) : Behaviors := behavior (self s).

(** The state [s] with another cache, clock position and request log. *)
Definition with_cache (s : State) (cs : list City) (n : nat)
    (log : list Request) : State :=
  mkState (mkWeatherApi (key s) cs (mode s)) n log.

(** What the two fetching methods make of an answer. *)
Definition weather_outcome (r : http_result Dict) : result Dict :=
  match r with
  | Transport_failure => Raise RuntimeError_failed_weather
  | Response code body =>
      if code =? 200 then
        match body with
        | Some d => Ret d
        | None => Raise RuntimeError_failed_weather
        end
      else Raise (ValueError_invalid_api_response code)
  end.

Definition geo_outcome (r : http_result geo_json)
  : result (option (float * float)) :=
  match r with
  | Transport_failure => Raise RuntimeError_failed_coordinates
  | Response code body =>
      if code =? 200 then
        match body with
        | Some GeoNoMatch => Ret None
        | Some (GeoMatch x y) => Ret (Some (x, y))
        | Some GeoMalformed => Raise MalformedGeocodeJson
        | None => Raise RuntimeError_failed_coordinates
        end
      else Raise (ValueError_invalid_api_response code)
  end.

(** The age of a cached entry at time [t], and the two sides of the
    ten-minute window. *)
Definition age (t : datetime) (c : City) : timedelta :=
  t - created_datetime c.
Definition fresh (t : datetime) (c : City) : bool := age t c <? minutes 10.
Definition stale (t : datetime) (c : City) : bool := minutes 10 <? age t c.

(** The request that refreshes an entry, and the entry once refreshed with
    payload [d] at time [t]. *)
Definition refresh_request (k : string) (c : City) : Request :=
  WeatherRequest (lat c) (lon c) k.
Definition refreshed_city (c : City) (d : Dict) (t : datetime) : City :=
  mkCity (city_name c) (lat c) (lon c) d t.

(** An entry after a refresh pass at time [t] that may have stopped
    early: as it was, or stale and refreshed. *)
Definition kept_or_refreshed (t : datetime) (c c' : City) : Prop :=
  c' = c \/ (stale t c = true /\ exists d, c' = refreshed_city c d t).

(** A complete refresh pass at time [t], by a client with key [k] whose
    next request is the [n]-th: [refreshed w t k n cs cs' reqs] says that
    every entry of [cs] older than ten minutes has been fetched again at
    its stored coordinates, with a successful answer, and carries the new
    payload and the time [t] in [cs']; that the other entries are
    untouched; and that [reqs] are the requests made, in order. *)
Inductive refreshed (w : World) (t : datetime) (k : string)
  : nat -> list City -> list City -> list Request -> Prop :=
| refreshed_nil n : refreshed w t k n [] [] []
| refreshed_keep n c cs cs' reqs :
    stale t c = false ->
    refreshed w t k n cs cs' reqs ->
    refreshed w t k n (c :: cs) (c :: cs') reqs
| refreshed_fetch n c d cs cs' reqs :
    stale t c = true ->
    whitespace_only (city_name c) = false ->
    weather_endpoint w n (lat c) (lon c) k = Response 200 (Some d) ->
    refreshed w t k (S n) cs cs' reqs ->
    refreshed w t k n (c :: cs) (refreshed_city c d t :: cs')
              (refresh_request k c :: reqs).

(** [named C c]: the entry [c] is for the city [C]. *)
Definition named (C : string) (c : City) : bool :=
  String.eqb (city_name c) C.

(** [others_kept X l l']: [l'] is [l] without its entries named [X]; the
    other entries are all there, as they were and in the same order. *)
Inductive others_kept (X : string) : list City -> list City -> Prop :=
| others_nil : others_kept X [] []
| others_drop c l l' :
    city_name c = X -> others_kept X l l' -> others_kept X (c :: l) l'
| others_keep c l l' :
    city_name c <> X -> others_kept X l l' ->
    others_kept X (c :: l) (c :: l').

(** A live client registered with the key [k]. *)
Definition registered (p : Process) (k : string) : Prop :=
  exists (a : nat) (o : WeatherApi),
    In a (weather_api_cache p) /\ nth_error (heap p) a = Some o
    /\ api_key o = k.

(** The capacity invariant of a client. *)
Definition bounded (o : WeatherApi) : Prop :=
  (List.length (cities o) <= 10)%nat.

(** The state in which the lookup of [get_and_cache_weather_city]
    starts: after the refresh of lines 87 and 88 in polling mode, the
    state of the call otherwise. *)
Definition lookup_state (w : World) (s : State) : result unit * State :=
  if Behaviors_eqb (mode s) POLLING then update_cities_cache w s
  else (Ret tt, s).

(** The sentence "calling getWeather for the same city after the
    10-minute freshness window elapses issues a new fetch and updates the
    existing entry rather than duplicating it", for a client [s] and a
    city [C]. *)
Definition refetch_updates_in_place (w : World) (s : State) (C : string)
  : Prop :=
  mode s = ON_DEMAND ->
  (exists c, In c (cache s) /\ city_name c = C
             /\ minutes 10 <= age (clock w (ticks s)) c) ->
  let s' := snd (get_and_cache_weather_city w C s) in
  (exists la lo, In (WeatherRequest la lo (key s)) (sent s'))
  /\ List.length (filter (named C) (cache s')) = 1%nat
  /\ List.length (cache s') = List.length (cache s).

(** The sentence "for all non-blank city names with a successful
    geocode and weather response, getWeather returns the weather payload
    and adds exactly one cache entry", for a client [s] below capacity
    and a city [name]. *)
Definition fetch_adds_one_entry (w : World) (s : State) (name : string)
  : Prop :=
  whitespace_only name = false ->
  (List.length (cache s) < 10)%nat ->
  forall (x y : float) (d : Dict),
    (forall n k, geo_endpoint w n name k = Response 200 (Some (GeoMatch x y))) ->
    (forall n k, weather_endpoint w n y x k = Response 200 (Some d)) ->
    fst (get_and_cache_weather_city w name s) = Ret d
    /\ exists t, cache (snd (get_and_cache_weather_city w name s))
                 = cache s ++ [mkCity name y x d t].

(** * Scenarios *)

(** A world whose clock starts eleven minutes after the epoch and moves
    by a microsecond at each reading, and whose endpoints answer every
    request: the geocoder with one place, the weather service with one
    reading. *)
Definition reading : Dict := [("temp"%string, "280"%string)].
Definition calm : World :=
  mkWorld (fun n => minutes 11 + Z.of_nat n)
          (fun _ _ _ => Response 200 (Some (GeoMatch 2.5%float 48.75%float)))
          (fun _ _ _ _ => Response 200 (Some reading)).

(** An entry for [name] fetched at time [t], with an older reading. *)
Definition entry (name : string) (t : datetime) : City :=
  mkCity name 48.75%float 2.5%float [("temp"%string, "270"%string)] t.

Definition client (cs : list City) (b : Behaviors) : State :=
  mkState (mkWeatherApi "key" cs b) 0 [].

(** A process with one registered client. *)
Definition one_client : Process :=
  mkProcess [mkWeatherApi "key" [] ON_DEMAND] [0%nat].

(** Ten cities, fetched at the epoch. *)
Definition ten_cities : list City :=
  map (fun name => entry name 0)
      ["Amsterdam"; "Berlin"; "Cairo"; "Dakar"; "Edinburgh";
       "Florence"; "Geneva"; "Havana"; "Istanbul"; "Jakarta"]%string.

(** * Vocabulary of the further properties *)

(** Every cached name passes the validator. *)
Definition names_valid (cs : list City) : Prop :=
  Forall (fun c => whitespace_only (city_name c) = false) cs.

(** The key a request carries. *)
Definition appid (r : Request) : string :=
  match r with
  | GeoRequest _ k => k
  | WeatherRequest _ _ k => k
  end.

(** The same entry, up to its reading and its time. *)
Definition same_place (c c' : City) : Prop :=
  city_name c' = city_name c /\ lat c' = lat c /\ lon c' = lon c.

(** The exceptions of the weather fetch, and those of a whole call. *)
Definition fetch_exn (e : exn) : Prop :=
  e = ValueError_invalid_parameter
  \/ e = RuntimeError_failed_weather
  \/ exists code, code <> 200 /\ e = ValueError_invalid_api_response code.

Definition call_exn (e : exn) : Prop :=
  fetch_exn e
  \/ e = RuntimeError_failed_coordinates
  \/ e = MalformedGeocodeJson
  \/ e = ValueError_not_in_list.

(** The setter of the property [api_key], on the client at address [a]:
    [self._api_key = value].  An address with no client behind it is
    no reference to a client; the process is then left as it is. *)
Definition api_key_setter (a : nat) (value : string) (p : Process)
  : Process :=
  match nth_error (heap p) a with
  | Some o =>
      mkProcess (list_set a (mkWeatherApi value (cities o) (behavior o))
                          (heap p))
                (weather_api_cache p)
  | None => p
  end.

(** The key of the client at an address, the registry as a list of keys,
    and the two properties of a registry: its addresses are those of
    clients, and no two of its clients have the same key. *)
Definition key_of (p : Process) (a : nat) : string :=
  match nth_error (heap p) a with
  | Some o => api_key o
  | None => EmptyString
  end.

Definition well_formed (p : Process) : Prop :=
  Forall (fun a => (a < List.length (heap p))%nat) (weather_api_cache p).

Definition unique_keys (p : Process) : Prop :=
  NoDup (map (key_of p) (weather_api_cache p)).

(** A world like [calm] whose geocoder knows no place. *)
Definition nowhere : World :=
  mkWorld (clock calm)
          (fun _ _ _ => Response 200 (Some GeoNoMatch))
          (weather_endpoint calm).

(** A world like [calm] whose weather service is down. *)
Definition stormy : World :=
  mkWorld (clock calm) (geo_endpoint calm)
          (fun _ _ _ _ => Response 503 None).

(** A world like [calm] whose weather service answers the first request
    and is out of reach afterwards. *)
Definition flaky : World :=
  mkWorld (clock calm) (geo_endpoint calm)
          (fun n _ _ _ => match n with
                          | O => Response 200 (Some reading)
                          | S _ => Transport_failure
                          end).

(** A world like [calm] whose clock moves by eleven minutes at each
    reading, and [n] calls for the same city in a row. *)
Definition eleven_apart : World :=
  mkWorld (fun n => minutes 11 * Z.of_nat n)
          (geo_endpoint calm) (weather_endpoint calm).

Fixpoint calls (w : World) (name : string) (n : nat) (s : State) : State :=
  match n with
  | O => s
  | S n' => calls w name n' (snd (get_and_cache_weather_city w name s))
  end.

(** A process with two registered clients. *)
Definition two_clients : Process :=
  mkProcess [mkWeatherApi "key" [] ON_DEMAND; mkWeatherApi "other" [] POLLING]
            [0%nat; 1%nat].

(** * Properties *)

Lemma with_cache_same (s : State) :
  with_cache s (cache s) (ticks s) (sent s) = s.
Proof. destruct s as [[k cs b] n l]. reflexivity. Qed.


(** ** Strings and validation *)

Lemma lstrip_empty_iff (s : string) :
  lstrip s = EmptyString <-> whitespace_only s = true.
Proof.
  induction s as [|c r IH]; simpl.
  - tauto.
  - destruct (isspace c); simpl.
    + exact IH.
    + split; discriminate.
Qed.

Lemma rstrip_empty_iff (s : string) :
  rstrip s = EmptyString <-> whitespace_only s = true.
Proof.
  induction s as [|c r IH]; simpl.
  - tauto.
  - destruct (rstrip r) eqn:E.
    + destruct (isspace c); simpl.
      * split; intros _; [apply IH|]; reflexivity.
      * split; discriminate.
    + split; [discriminate|].
      intros H. apply andb_true_iff in H as [_ H].
      apply IH in H. discriminate.
Qed.

Lemma lstrip_head (s : string) :
  match lstrip s with
  | EmptyString => True
  | String c _ => isspace c = false
  end.
Proof.
  induction s as [|c r IH]; simpl; [exact I|].
  destruct (isspace c) eqn:E; [exact IH | exact E].
Qed.

Lemma strip_empty_iff (s : string) :
  strip s = EmptyString <-> whitespace_only s = true.
Proof.
  unfold strip. split.
  - intros H. apply rstrip_empty_iff in H. apply lstrip_empty_iff.
    pose proof (lstrip_head s) as Hh.
    destruct (lstrip s) as [|c r]; [reflexivity|].
    simpl in H. rewrite Hh in H. discriminate.
  - intros H. apply lstrip_empty_iff in H. rewrite H. reflexivity.
Qed.

Lemma is_valid_parameter_blank (s : string) :
  whitespace_only s = true ->
  is_valid_parameter s = Raise ValueError_invalid_parameter.
Proof.
  intros H. unfold is_valid_parameter.
  apply strip_empty_iff in H. rewrite H.
  rewrite orb_true_r. reflexivity.
Qed.

Lemma is_valid_parameter_nonblank (s : string) :
  whitespace_only s = false ->
  is_valid_parameter s = Ret true.
Proof.
  intros H. unfold is_valid_parameter.
  destruct s as [|c r]; [discriminate|]. simpl negb. simpl orb.
  destruct (String.eqb (strip (String c r)) EmptyString) eqn:E; [|reflexivity].
  apply String.eqb_eq, strip_empty_iff in E. congruence.
Qed.

Lemma is_valid_parameter_cases (s : string) :
  is_valid_parameter s = Ret true \/
  is_valid_parameter s = Raise ValueError_invalid_parameter.
Proof.
  unfold is_valid_parameter.
  destruct (_ || _); [right | left]; reflexivity.
Qed.

(** ** Ages *)

(** The two tests of the source, on microseconds. *)
Lemma fresh_test (current_time : datetime) (city : City) :
  Qltb (time_diff current_time city) (inject_Z 10) = fresh current_time city.
Proof.
  unfold fresh, age, Qltb, Qle_bool, time_diff, total_seconds, Qdiv, Qinv,
    Qmult, inject_Z, minutes; simpl.
  rewrite Z.ltb_antisym. f_equal.
  apply eq_true_iff_eq. rewrite !Z.leb_le. lia.
Qed.

Lemma stale_test (current_time : datetime) (city : City) :
  Qltb (inject_Z 10) (time_diff current_time city) = stale current_time city.
Proof.
  unfold stale, age, Qltb, Qle_bool, time_diff, total_seconds, Qdiv, Qinv,
    Qmult, inject_Z, minutes; simpl.
  rewrite Z.ltb_antisym. f_equal.
  apply eq_true_iff_eq. rewrite !Z.leb_le. lia.
Qed.

(** ** Runs of the methods *)

Section Runs.

Variable w : World.

Lemma send_request_run (name : string) (la lo : float) (s : State) :
  is_valid_parameter name = Ret true ->
  _send_request_to_get_weather_city_json w name la lo s
  = (weather_outcome (weather_endpoint w (List.length (sent s)) la lo (key s)),
     with_cache s (cache s) (ticks s)
       (sent s ++ [WeatherRequest la lo (key s)])).
Proof.
  intros Hv. unfold _send_request_to_get_weather_city_json.
  munfold. rewrite Hv. unfold weather_outcome, with_cache, key, cache, mode.
  destruct s as [[k cs b] n l]; simpl.
  destruct (weather_endpoint w (List.length l) la lo k) as [|code body];
    [reflexivity|]; simpl.
  destruct (code =? 200); simpl; [|reflexivity].
  destruct body; reflexivity.
Qed.

Lemma send_request_blank (name : string) (la lo : float) (s : State) :
  is_valid_parameter name = Raise ValueError_invalid_parameter ->
  _send_request_to_get_weather_city_json w name la lo s
  = (Raise ValueError_invalid_parameter, s).
Proof.
  intros Hv. unfold _send_request_to_get_weather_city_json.
  munfold. rewrite Hv. reflexivity.
Qed.

Lemma get_city_lon_lat_run (name : string) (s : State) :
  is_valid_parameter name = Ret true ->
  get_city_lon_lat w name s
  = (geo_outcome (geo_endpoint w (List.length (sent s)) name (key s)),
     with_cache s (cache s) (ticks s) (sent s ++ [GeoRequest name (key s)])).
Proof.
  intros Hv. unfold get_city_lon_lat.
  munfold. rewrite Hv. unfold geo_outcome, with_cache, key, cache, mode.
  destruct s as [[k cs b] n l]; simpl.
  destruct (geo_endpoint w (List.length l) name k) as [|code body];
    [reflexivity|]; simpl.
  destruct (code =? 200); simpl; [|reflexivity].
  destruct body as [[ | x y | ]|]; reflexivity.
Qed.

Lemma get_city_lon_lat_blank (name : string) (s : State) :
  is_valid_parameter name = Raise ValueError_invalid_parameter ->
  get_city_lon_lat w name s = (Raise ValueError_invalid_parameter, s).
Proof.
  intros Hv. unfold get_city_lon_lat. munfold. rewrite Hv. reflexivity.
Qed.

(** [list.remove(0)] finds nothing to remove in a list of [City]. *)
Lemma list_remove_int (n : Z) (l : list City) : list_remove n l = None.
Proof.
  induction l as [|c r IH]; simpl; [reflexivity|].
  rewrite IH. reflexivity.
Qed.

(** The second loop of [get_and_cache_weather_city] finds nothing the
    first one did not. *)
Lemma find_coords_none (name : string) (x y : float) (t : datetime)
    (cs : list City) :
  find (name_fresh name t) cs = None ->
  find (name_coords_fresh name x y t) cs = None.
Proof.
  induction cs as [|c r IH]; simpl; [reflexivity|].
  unfold name_fresh at 1, name_coords_fresh at 1.
  destruct (String.eqb (city_name c) name); simpl.
  - destruct (Qltb (time_diff t c) (inject_Z 10)); [discriminate|].
    rewrite andb_false_r. exact IH.
  - exact IH.
Qed.

Lemma get_and_cache_weather_city_eq (name : string) :
  get_and_cache_weather_city w name
  = (lift (is_valid_parameter name) ;;;
     me <- get_self ;;
     (if Behaviors_eqb (behavior me) POLLING
      then update_cities_cache w else ret tt) ;;;
     lookup_or_fetch w name).
Proof. reflexivity. Qed.

Lemma get_on_demand (name : string) (s : State) :
  is_valid_parameter name = Ret true ->
  mode s = ON_DEMAND ->
  get_and_cache_weather_city w name s = lookup_or_fetch w name s.
Proof.
  intros Hv Hm. rewrite get_and_cache_weather_city_eq.
  unfold bind at 1, lift. rewrite Hv.
  unfold bind at 1, get_self. unfold mode in Hm. rewrite Hm. reflexivity.
Qed.

Lemma get_polling (name : string) (s : State) :
  is_valid_parameter name = Ret true ->
  mode s = POLLING ->
  get_and_cache_weather_city w name s
  = match update_cities_cache w s with
    | (Ret _, s1) => lookup_or_fetch w name s1
    | (Raise e, s1) => (Raise e, s1)
    end.
Proof.
  intros Hv Hm. rewrite get_and_cache_weather_city_eq.
  unfold bind at 1, lift. rewrite Hv.
  unfold bind at 1, get_self. unfold mode in Hm. rewrite Hm. reflexivity.
Qed.

Lemma get_blank (name : string) (s : State) :
  is_valid_parameter name = Raise ValueError_invalid_parameter ->
  get_and_cache_weather_city w name s = (Raise ValueError_invalid_parameter, s).
Proof.
  intros Hv. rewrite get_and_cache_weather_city_eq.
  unfold bind at 1, lift. rewrite Hv. reflexivity.
Qed.

(** A cache hit: the first loop returns. *)
Lemma lookup_hit (name : string) (s : State) (city : City) :
  find (name_fresh name (clock w (ticks s))) (cache s) = Some city ->
  lookup_or_fetch w name s
  = (Ret (weather_data city), with_cache s (cache s) (S (ticks s)) (sent s)).
Proof.
  destruct s as [[k cs b] n l]. unfold cache, with_cache, key, mode.
  cbn [self ticks sent cities api_key behavior].
  intros Hf. unfold lookup_or_fetch.
  unfold bind at 1, datetime_now at 1.
  unfold bind at 1, get_cities at 1.
  cbn [self ticks sent cities api_key behavior].
  rewrite Hf. reflexivity.
Qed.

(** A cache miss: every way the rest of the method can go. *)
Lemma lookup_miss (name : string) (s : State) :
  is_valid_parameter name = Ret true ->
  find (name_fresh name (clock w (ticks s))) (cache s) = None ->
  lookup_or_fetch w name s
  = let geo := GeoRequest name (key s) in
    match geo_outcome (geo_endpoint w (List.length (sent s)) name (key s)) with
    | Raise e =>
        (Raise e, with_cache s (cache s) (S (ticks s)) (sent s ++ [geo]))
    | Ret None =>
        (Ret empty_dict, with_cache s (cache s) (S (ticks s)) (sent s ++ [geo]))
    | Ret (Some (lon', lat')) =>
        let log := sent s ++ [geo; WeatherRequest lat' lon' (key s)] in
        match weather_outcome
                (weather_endpoint w (S (List.length (sent s))) lat' lon' (key s))
        with
        | Raise e => (Raise e, with_cache s (cache s) (S (ticks s)) log)
        | Ret data =>
            if (9 <? List.length (cache s))%nat
            then (Raise ValueError_not_in_list,
                  with_cache s (cache s) (S (ticks s)) log)
            else (Ret data,
                  with_cache s
                    (cache s ++ [mkCity name lat' lon' data
                                        (clock w (S (ticks s)))])
                    (S (S (ticks s))) log)
        end
    end.
Proof.
  destruct s as [[k cs b] n l]. unfold cache, with_cache, key, mode.
  cbn [self ticks sent cities api_key behavior].
  intros Hv Hf. unfold lookup_or_fetch.
  unfold bind at 1, datetime_now at 1.
  unfold bind at 1, get_cities at 1.
  cbn [self ticks sent cities api_key behavior].
  rewrite Hf.
  unfold bind at 1. rewrite (get_city_lon_lat_run _ _ Hv).
  unfold cache, with_cache, key, mode.
  cbn [self ticks sent cities api_key behavior].
  destruct (geo_outcome _) as [[[x y]|]|e]; [| reflexivity | reflexivity].
  unfold bind at 1, get_cities at 1.
  cbn [self ticks sent cities api_key behavior].
  rewrite (find_coords_none _ _ _ _ _ Hf).
  unfold bind at 1. rewrite (send_request_run _ _ _ _ Hv).
  unfold cache, with_cache, key, mode.
  cbn [self ticks sent cities api_key behavior].
  rewrite length_app, Nat.add_comm. cbn [List.length Nat.add].
  rewrite <- app_assoc. cbn [app].
  destruct (weather_outcome _) as [data|e]; [|reflexivity].
  unfold bind at 1, get_cities at 1.
  cbn [self ticks sent cities api_key behavior].
  destruct (9 <? List.length cs)%nat.
  - unfold bind at 1, cities_remove, bind, get_cities.
    cbn [self ticks sent cities api_key behavior].
    rewrite list_remove_int. reflexivity.
  - reflexivity.
Qed.

(** ** The polling refresh *)

Lemma list_set_app {A} (pre : list A) (x y : A) (rest : list A) :
  list_set (List.length pre) x (pre ++ y :: rest) = pre ++ x :: rest.
Proof.
  induction pre as [|a pre IH]; simpl; [reflexivity|].
  rewrite IH. reflexivity.
Qed.

Lemma snoc_app {A} (pre : list A) (x : A) (rest : list A) :
  pre ++ x :: rest = (pre ++ [x]) ++ rest.
Proof. rewrite <- app_assoc. reflexivity. Qed.

Lemma length_snoc {A} (pre : list A) (x : A) :
  List.length (pre ++ [x]) = S (List.length pre).
Proof. rewrite length_app, Nat.add_comm. reflexivity. Qed.

(** One step of the loop on a stale entry. *)
Lemma update_step_run (t : datetime) (c : City) (pre rest : list City)
    (s : State) :
  cache s = pre ++ c :: rest ->
  is_valid_parameter (city_name c) = Ret true ->
  (data <- _send_request_to_get_weather_city_json w
             (city_name c) (lat c) (lon c) ;;
   set_city (List.length pre)
     (mkCity (city_name c) (lat c) (lon c) data t)) s
  = match weather_outcome
            (weather_endpoint w (List.length (sent s)) (lat c) (lon c) (key s))
    with
    | Ret d =>
        (Ret tt,
         with_cache s (pre ++ refreshed_city c d t :: rest) (ticks s)
           (sent s ++ [refresh_request (key s) c]))
    | Raise e =>
        (Raise e,
         with_cache s (cache s) (ticks s)
           (sent s ++ [refresh_request (key s) c]))
    end.
Proof.
  intros Hc Hv. unfold bind at 1.
  rewrite (send_request_run _ _ _ _ Hv).
  destruct (weather_outcome _) as [d|e]; [|reflexivity].
  unfold set_city, bind, get_cities, set_cities, with_cache, key, mode.
  cbn [self ticks sent cities api_key behavior].
  rewrite Hc, list_set_app. reflexivity.
Qed.

Lemma update_step_ok (t : datetime) (c : City) (d : Dict)
    (pre rest : list City) (s : State) :
  cache s = pre ++ c :: rest ->
  whitespace_only (city_name c) = false ->
  weather_endpoint w (List.length (sent s)) (lat c) (lon c) (key s)
  = Response 200 (Some d) ->
  (data <- _send_request_to_get_weather_city_json w
             (city_name c) (lat c) (lon c) ;;
   set_city (List.length pre)
     (mkCity (city_name c) (lat c) (lon c) data t)) s
  = (Ret tt,
     with_cache s (pre ++ refreshed_city c d t :: rest) (ticks s)
       (sent s ++ [refresh_request (key s) c])).
Proof.
  intros Hc Hn He.
  rewrite (update_step_run t c pre rest s Hc
             (is_valid_parameter_nonblank _ Hn)).
  rewrite He. reflexivity.
Qed.

(** A complete pass returns, with the cache [refreshed] describes. *)
Lemma update_cities_loop_ok (t : datetime) (todo : list City) :
  forall (pre : list City) (s : State) (todo' : list City)
         (reqs : list Request),
  cache s = pre ++ todo ->
  refreshed w t (key s) (List.length (sent s)) todo todo' reqs ->
  update_cities_loop w t (List.length pre) todo s
  = (Ret tt, with_cache s (pre ++ todo') (ticks s) (sent s ++ reqs)).
Proof.
  induction todo as [|c rest IH]; intros pre s todo' reqs Hc Hr.
  - inversion Hr; subst. cbn [update_cities_loop]. unfold ret.
    rewrite <- Hc, app_nil_r, with_cache_same. reflexivity.
  - inversion Hr as [ | n c0 cs cs' q Hs Hr' | n c0 d cs cs' q Hs Hn He Hr' ];
      subst; cbn [update_cities_loop]; rewrite stale_test, Hs.
    + unfold bind at 1, ret at 1.
      rewrite <- length_snoc with (x := c).
      rewrite (IH (pre ++ [c]) s cs' reqs); [| now rewrite <- snoc_app | exact Hr'].
      rewrite <- snoc_app. reflexivity.
    + unfold bind at 1.
      rewrite (update_step_ok t c d pre rest s Hc Hn He).
      rewrite <- length_snoc with (x := refreshed_city c d t).
      set (s1 := with_cache s _ _ _).
      rewrite (IH (pre ++ [refreshed_city c d t]) s1 cs' q).
      * unfold s1, with_cache, key, mode.
        cbn [self ticks sent cities api_key behavior].
        rewrite <- !snoc_app. reflexivity.
      * unfold s1, with_cache, cache. cbn [self cities].
        apply snoc_app.
      * unfold s1, with_cache, key. cbn [self sent api_key].
        rewrite length_snoc. exact Hr'.
Qed.

Lemma update_cities_cache_ok (s : State) (cs' : list City)
    (reqs : list Request) :
  refreshed w (clock w (ticks s)) (key s) (List.length (sent s))
            (cache s) cs' reqs ->
  update_cities_cache w s
  = (Ret tt, with_cache s cs' (S (ticks s)) (sent s ++ reqs)).
Proof.
  intros Hr. unfold update_cities_cache.
  unfold bind at 1, datetime_now at 1.
  unfold bind at 1, get_cities at 1. cbn [self ticks sent].
  set (s1 := mkState (self s) (S (ticks s)) (sent s)).
  change (cities (self s)) with (cache s1).
  rewrite (update_cities_loop_ok _ _ [] s1 cs' reqs);
    [reflexivity | reflexivity | exact Hr].
Qed.

Lemma kept_refl (t : datetime) (l : list City) :
  Forall2 (kept_or_refreshed t) l l.
Proof. induction l; constructor; [left; reflexivity | assumption]. Qed.

(** However the pass ends, it leaves an entry as it was or refreshed,
    touches nothing else of the state, and the requests it has sent are
    the first of the refresh requests of the stale entries, in order. *)
Lemma update_cities_loop_frame (t : datetime) (todo : list City) :
  forall (pre : list City) (s : State),
  cache s = pre ++ todo ->
  exists (todo' : list City) (reqs rest : list Request),
    snd (update_cities_loop w t (List.length pre) todo s)
    = with_cache s (pre ++ todo') (ticks s) (sent s ++ reqs)
    /\ Forall2 (kept_or_refreshed t) todo todo'
    /\ map (refresh_request (key s)) (filter (stale t) todo) = reqs ++ rest.
Proof.
  induction todo as [|c rest IH]; intros pre s Hc.
  - exists [], [], []. cbn. rewrite <- Hc, app_nil_r, with_cache_same.
    repeat split; constructor.
  - cbn [update_cities_loop filter]. rewrite stale_test.
    destruct (stale t c) eqn:Hs.
    + destruct (is_valid_parameter_cases (city_name c)) as [Hv|Hv].
      * unfold bind at 1.
        rewrite (update_step_run t c pre rest s Hc Hv).
        destruct (weather_outcome _) as [d|e].
        -- set (s1 := with_cache s _ _ _).
           rewrite <- length_snoc with (x := refreshed_city c d t).
           destruct (IH (pre ++ [refreshed_city c d t]) s1)
             as (todo' & reqs & more & Hst & Hf & Hl).
           { unfold s1, cache, with_cache. cbn [self cities]. apply snoc_app. }
           exists (refreshed_city c d t :: todo'),
                  (refresh_request (key s) c :: reqs), more.
           split; [|split].
           ++ rewrite Hst.
              unfold s1, with_cache, key, mode.
              cbn [self ticks sent cities api_key behavior].
              rewrite <- !snoc_app. reflexivity.
           ++ constructor; [|exact Hf]. right. split; [exact Hs|].
              exists d. reflexivity.
           ++ cbn [map app]. f_equal. exact Hl.
        -- exists (c :: rest), [refresh_request (key s) c],
                  (map (refresh_request (key s)) (filter (stale t) rest)).
           cbn [snd]. rewrite Hc.
           split; [reflexivity|]. split; [apply kept_refl|]. reflexivity.
      * unfold bind at 1. unfold bind at 1.
        rewrite (send_request_blank _ _ _ _ Hv).
        exists (c :: rest), [],
               (map (refresh_request (key s)) (filter (stale t) (c :: rest))).
        cbn [snd]. rewrite <- Hc, app_nil_r, with_cache_same.
        split; [reflexivity|]. split; [apply kept_refl|].
        cbn [filter]. rewrite Hs. reflexivity.
    + unfold bind at 1, ret at 1.
      rewrite <- length_snoc with (x := c).
      destruct (IH (pre ++ [c]) s) as (todo' & reqs & more & Hst & Hf & Hl).
      { rewrite Hc. apply snoc_app. }
      exists (c :: todo'), reqs, more.
      split; [|split].
      * rewrite Hst, <- snoc_app. reflexivity.
      * constructor; [left; reflexivity | exact Hf].
      * exact Hl.
Qed.

Lemma update_cities_cache_frame (s : State) :
  exists (cs' : list City) (reqs rest : list Request),
    snd (update_cities_cache w s)
    = with_cache s cs' (S (ticks s)) (sent s ++ reqs)
    /\ Forall2 (kept_or_refreshed (clock w (ticks s))) (cache s) cs'
    /\ map (refresh_request (key s))
           (filter (stale (clock w (ticks s))) (cache s)) = reqs ++ rest.
Proof.
  unfold update_cities_cache.
  unfold bind at 1, datetime_now at 1.
  unfold bind at 1, get_cities at 1. cbn [self ticks sent].
  set (s1 := mkState (self s) (S (ticks s)) (sent s)).
  change (cities (self s)) with (cache s1).
  destruct (update_cities_loop_frame (clock w (ticks s)) (cache s1) [] s1)
    as (cs' & reqs & rest & Hst & Hf & Hl); [reflexivity|].
  exists cs', reqs, rest. split; [|split]; [exact Hst | exact Hf | exact Hl].
Qed.

End Runs.

(** ** Validation *)

(** C8.  A city name that is empty or made of white space only makes
    [get_city_lon_lat] and [get_and_cache_weather_city] raise the
    ValueError of the validator, and the state they leave is the state
    they found: no request has been sent, the cache is as it was. *)
Theorem blank_name_rejected (w : World) (name : string) (s : State) :
  whitespace_only name = true ->
  get_city_lon_lat w name s = (Raise ValueError_invalid_parameter, s)
  /\ get_and_cache_weather_city w name s
     = (Raise ValueError_invalid_parameter, s)
  /\ class_of ValueError_invalid_parameter = ValueError.
Proof.
  intros Hb. apply is_valid_parameter_blank in Hb.
  split; [|split].
  - apply get_city_lon_lat_blank, Hb.
  - apply get_blank, Hb.
  - reflexivity.
Qed.

Lemma blank_name_rejected_witness :
  get_city_lon_lat calm "   " (client ten_cities POLLING)
  = (Raise ValueError_invalid_parameter, client ten_cities POLLING)
  /\ get_and_cache_weather_city calm "   " (client ten_cities POLLING)
     = (Raise ValueError_invalid_parameter, client ten_cities POLLING)
  /\ class_of ValueError_invalid_parameter = ValueError.
Proof.
  apply (blank_name_rejected calm "   " (client ten_cities POLLING)).
  reflexivity.
Defined.

(** ** Removal *)

Lemma filter_others_kept (X : string) (l : list City) :
  others_kept X l
    (filter (fun city => negb (String.eqb (city_name city) X)) l).
Proof.
  induction l as [|c l IH]; simpl; [constructor|].
  destruct (String.eqb_spec (city_name c) X) as [E|E]; simpl.
  - apply others_drop; assumption.
  - apply others_keep; assumption.
Qed.

Lemma filter_none_named (X : string) (l : list City) :
  Forall (fun c => city_name c <> X)
    (filter (fun city => negb (String.eqb (city_name city) X)) l).
Proof.
  apply Forall_forall. intros c Hin. apply filter_In in Hin as [_ Hn].
  destruct (String.eqb_spec (city_name c) X); [discriminate | assumption].
Qed.

(** [others_kept] leaves no choice: it determines the list that is
    left. *)
Lemma others_kept_unique (X : string) (l l1 l2 : list City) :
  others_kept X l l1 -> others_kept X l l2 -> l1 = l2.
Proof.
  intros H1. revert l2.
  induction H1 as [ | c l l1 Hc _ IH | c l l1 Hc _ IH ]; intros l2 H2;
    inversion H2; subst; try contradiction; try reflexivity.
  - apply IH. assumption.
  - f_equal. apply IH. assumption.
Qed.

(** C9.  [remove_city_by_name X] returns, leaves no entry named [X] in
    the cache, keeps every other entry as it was and in its place
    relative to the others, and touches nothing else of the state. *)
Theorem remove_city_by_name_spec (X : string) (s : State) :
  exists cs',
    remove_city_by_name X s
    = (Ret tt, with_cache s cs' (ticks s) (sent s))
    /\ Forall (fun c => city_name c <> X) cs'
    /\ others_kept X (cache s) cs'.
Proof.
  exists (filter (fun city => negb (String.eqb (city_name city) X)) (cache s)).
  split; [reflexivity|]. split.
  - apply filter_none_named.
  - apply filter_others_kept.
Qed.

(** ** Construction *)

Lemma existsb_has_api_key (p : Process) (k : string) :
  existsb (has_api_key p k) (weather_api_cache p) = true <-> registered p k.
Proof.
  rewrite existsb_exists. unfold registered, has_api_key. split.
  - intros (a & Hin & H).
    destruct (nth_error (heap p) a) as [o|] eqn:E; [|discriminate].
    exists a, o. apply String.eqb_eq in H. auto.
  - intros (a & o & Hin & Hn & Hk). exists a. split; [exact Hin|].
    rewrite Hn. apply String.eqb_eq, Hk.
Qed.

(** C7.  Constructing a client with the key of a registered client
    raises the RuntimeError "Api key already exists" and leaves the
    registry, and the clients, as they were.  Constructing one with a key
    no registered client has returns a new client with that key, the
    given behavior and an empty cache, appended to the registry; the
    clients that were there are untouched. *)
Theorem init_unique_api_key (k : string) (b : Behaviors) (p : Process) :
  (registered p k ->
   __init__ k b p = (Raise RuntimeError_api_key_exists, p)
   /\ class_of RuntimeError_api_key_exists = RuntimeError)
  /\ (~ registered p k ->
      exists a p',
        __init__ k b p = (Ret a, p')
        /\ weather_api_cache p' = weather_api_cache p ++ [a]
        /\ nth_error (heap p') a = Some (mkWeatherApi k [] b)
        /\ (forall a' o, nth_error (heap p) a' = Some o ->
                         nth_error (heap p') a' = Some o)).
Proof.
  unfold __init__. split.
  - intros Hr. apply existsb_has_api_key in Hr. rewrite Hr.
    split; reflexivity.
  - intros Hn.
    destruct (existsb (has_api_key p k) (weather_api_cache p)) eqn:E.
    + apply existsb_has_api_key in E. contradiction.
    + eexists _, _. split; [reflexivity|]. cbn [weather_api_cache heap].
      split; [reflexivity|]. split.
      * rewrite nth_error_app2, Nat.sub_diag; [reflexivity | lia].
      * intros a' o Ha. rewrite nth_error_app1; [exact Ha|].
        apply nth_error_Some. congruence.
Qed.

Lemma init_unique_api_key_witness :
  (__init__ "key" POLLING one_client
   = (Raise RuntimeError_api_key_exists, one_client)
   /\ class_of RuntimeError_api_key_exists = RuntimeError)
  /\ (exists a p',
        __init__ "other" POLLING one_client = (Ret a, p')
        /\ weather_api_cache p' = weather_api_cache one_client ++ [a]
        /\ nth_error (heap p') a = Some (mkWeatherApi "other" [] POLLING)
        /\ (forall a' o, nth_error (heap one_client) a' = Some o ->
                         nth_error (heap p') a' = Some o)).
Proof.
  split.
  - apply (proj1 (init_unique_api_key "key" POLLING one_client)).
    exists 0%nat, (mkWeatherApi "key" [] ON_DEMAND).
    split; [left; reflexivity|]. split; reflexivity.
  - apply (proj2 (init_unique_api_key "other" POLLING one_client)).
    intros (a & o & [<- | []] & Hn & Hk).
    cbn in Hn. injection Hn as <-. discriminate Hk.
Defined.

(** ** The capacity of the cache *)

Section Capacity.

Variable w : World.

(** Whatever [lookup_or_fetch] does, it leaves the cache as it was or
    with one entry appended to at most nine, and the requests it sends,
    if any, start with the geocoding one. *)
Lemma lookup_or_fetch_frame (name : string) (s : State) :
  is_valid_parameter name = Ret true ->
  exists (cs' : list City) (n' : nat) (more : list Request),
    snd (lookup_or_fetch w name s) = with_cache s cs' n' (sent s ++ more)
    /\ (cs' = cache s
        \/ (List.length (cache s) <= 9)%nat /\ exists c, cs' = cache s ++ [c])
    /\ (more = [] \/ exists tl, more = GeoRequest name (key s) :: tl).
Proof.
  intros Hv.
  destruct (find (name_fresh name (clock w (ticks s))) (cache s)) as [c|] eqn:Hf.
  - rewrite (lookup_hit w _ _ _ Hf).
    exists (cache s), (S (ticks s)), []. rewrite app_nil_r. auto.
  - rewrite (lookup_miss w _ _ Hv Hf). cbv zeta.
    destruct (geo_outcome _) as [[[x y]|]|e].
    + destruct (weather_outcome _) as [d|e].
      * destruct (9 <? List.length (cache s))%nat eqn:Hl.
        -- eexists _, _, _. split; [reflexivity|]. split; [left; reflexivity|].
           right. eexists. reflexivity.
        -- eexists _, _, _. split; [reflexivity|]. split.
           ++ right. apply Nat.ltb_ge in Hl. split; [exact Hl|].
              eexists. reflexivity.
           ++ right. eexists. reflexivity.
      * eexists _, _, _. split; [reflexivity|]. split; [left; reflexivity|].
        right. eexists. reflexivity.
    + eexists _, _, _. split; [reflexivity|]. split; [left; reflexivity|].
      right. eexists. reflexivity.
    + eexists _, _, _. split; [reflexivity|]. split; [left; reflexivity|].
      right. eexists. reflexivity.
Qed.

Lemma lookup_or_fetch_bounded (name : string) (s : State) :
  is_valid_parameter name = Ret true ->
  bounded (self s) -> bounded (self (snd (lookup_or_fetch w name s))).
Proof.
  intros Hv Hb.
  destruct (lookup_or_fetch_frame name s Hv)
    as (cs' & n' & more & -> & [-> | (Hl & c & ->)] & _);
    unfold bounded, with_cache; cbn [self cities]; [exact Hb|].
  rewrite length_snoc. lia.
Qed.

Lemma update_cities_cache_length (s : State) :
  List.length (cache (snd (update_cities_cache w s))) = List.length (cache s).
Proof.
  destruct (update_cities_cache_frame w s) as (cs' & reqs & rest & -> & Hf & _).
  unfold cache at 1, with_cache. cbn [self cities].
  symmetry. exact (Forall2_length Hf).
Qed.

Lemma update_cities_cache_bounded (s : State) :
  bounded (self s) -> bounded (self (snd (update_cities_cache w s))).
Proof.
  unfold bounded. intros Hb.
  pose proof (update_cities_cache_length s) as Hl. unfold cache in Hl.
  rewrite Hl. exact Hb.
Qed.

Lemma get_bounded (name : string) (s : State) :
  bounded (self s) ->
  bounded (self (snd (get_and_cache_weather_city w name s))).
Proof.
  intros Hb.
  destruct (is_valid_parameter_cases name) as [Hv|Hv].
  - destruct (mode s) eqn:Hm.
    + rewrite (get_polling w _ _ Hv Hm).
      pose proof (update_cities_cache_bounded s Hb) as Hu.
      destruct (update_cities_cache w s) as [[[]|e] s1]; cbn [snd] in *.
      * apply lookup_or_fetch_bounded; assumption.
      * exact Hu.
    + rewrite (get_on_demand w _ _ Hv Hm).
      apply lookup_or_fetch_bounded; assumption.
  - rewrite (get_blank w _ _ Hv). exact Hb.
Qed.

Lemma remove_bounded (name : string) (s : State) :
  bounded (self s) -> bounded (self (snd (remove_city_by_name name s))).
Proof.
  unfold bounded. intros Hb. cbn.
  pose proof (filter_length_le
    (fun city => negb (String.eqb (city_name city) name)) (cities (self s))).
  lia.
Qed.

End Capacity.

(** C3.  A client that has just been constructed holds at most ten
    entries, and a client that holds at most ten still does after
    [get_and_cache_weather_city], [update_cities_cache] and
    [remove_city_by_name], in the state each of them leaves when it
    returns and when it raises. *)
Theorem capacity_invariant (w : World) (name : string) (s : State)
    (k : string) (b : Behaviors) (p : Process) :
  (forall a p', __init__ k b p = (Ret a, p') ->
     exists o, nth_error (heap p') a = Some o /\ bounded o)
  /\ (bounded (self s) ->
      bounded (self (snd (get_and_cache_weather_city w name s)))
      /\ bounded (self (snd (update_cities_cache w s)))
      /\ bounded (self (snd (remove_city_by_name name s)))).
Proof.
  split.
  - unfold __init__. intros a p'.
    destruct (existsb _ _); [discriminate|].
    intros H. injection H as <- <-. cbn [heap].
    exists (mkWeatherApi k [] b). split.
    + rewrite nth_error_app2, Nat.sub_diag; [reflexivity | lia].
    + unfold bounded. cbn. lia.
  - intros Hb. split; [|split].
    + apply get_bounded, Hb.
    + apply update_cities_cache_bounded, Hb.
    + apply remove_bounded, Hb.
Qed.

Lemma capacity_invariant_witness :
  (exists o,
     nth_error (heap (snd (__init__ "key" ON_DEMAND (mkProcess [] [])))) 0
     = Some o /\ bounded o)
  /\ bounded (self (snd (get_and_cache_weather_city calm "Kyoto"
                           (client ten_cities ON_DEMAND))))
  /\ bounded (self (snd (update_cities_cache calm
                           (client ten_cities ON_DEMAND))))
  /\ bounded (self (snd (remove_city_by_name "Kyoto"
                           (client ten_cities ON_DEMAND)))).
Proof.
  destruct (capacity_invariant calm "Kyoto" (client ten_cities ON_DEMAND)
              "key" ON_DEMAND (mkProcess [] [])) as [Hi Hm].
  split.
  - apply (Hi 0%nat _ eq_refl).
  - apply Hm. unfold bounded. simpl. lia.
Defined.

(** ** Insertion *)

Section Insertion.

Variable w : World.

Lemma name_fresh_test (name : string) (t : datetime) (c : City) :
  name_fresh name t c = named name c && fresh t c.
Proof. unfold name_fresh, named. rewrite fresh_test. reflexivity. Qed.

Lemma find_name_fresh_none (name : string) (t : datetime) (cs : list City) :
  find (name_fresh name t) cs = None
  <-> (forall c, In c cs -> city_name c = name -> fresh t c = false).
Proof.
  split.
  - intros Hf c Hin Hn.
    pose proof (find_none _ _ Hf c Hin) as H.
    rewrite name_fresh_test in H. unfold named in H.
    rewrite Hn, String.eqb_refl in H. exact H.
  - induction cs as [|c r IH]; intros H; [reflexivity|].
    cbn [find]. rewrite name_fresh_test. unfold named.
    destruct (String.eqb_spec (city_name c) name) as [E|E].
    + rewrite (H c (or_introl eq_refl) E). cbn.
      apply IH. intros c' Hin. apply H. right. exact Hin.
    + cbn. apply IH. intros c' Hin. apply H. right. exact Hin.
Qed.

(** A miss, a place, a reading and room for them: the entry is
    appended. *)
Lemma lookup_or_fetch_appends (name : string) (s : State) (x y : float)
    (d : Dict) :
  whitespace_only name = false ->
  (forall c, In c (cache s) -> city_name c = name ->
             fresh (clock w (ticks s)) c = false) ->
  (List.length (cache s) < 10)%nat ->
  geo_endpoint w (List.length (sent s)) name (key s)
  = Response 200 (Some (GeoMatch x y)) ->
  weather_endpoint w (S (List.length (sent s))) y x (key s)
  = Response 200 (Some d) ->
  lookup_or_fetch w name s
  = (Ret d,
     with_cache s (cache s ++ [mkCity name y x d (clock w (S (ticks s)))])
       (S (S (ticks s)))
       (sent s ++ [GeoRequest name (key s); WeatherRequest y x (key s)])).
Proof.
  intros Hn Hf Hl Hg Hw.
  apply find_name_fresh_none in Hf.
  rewrite (lookup_miss w _ _ (is_valid_parameter_nonblank _ Hn) Hf).
  cbv zeta. rewrite Hg. cbn [geo_outcome Z.eqb Pos.eqb].
  rewrite Hw. cbn [weather_outcome Z.eqb Pos.eqb].
  replace (9 <? List.length (cache s))%nat with false; [reflexivity|].
  symmetry. apply Nat.ltb_ge. lia.
Qed.

(** The same with no room: [self.cities.remove(0)] raises. *)
Lemma lookup_or_fetch_full (name : string) (s : State) (x y : float)
    (d : Dict) :
  whitespace_only name = false ->
  (forall c, In c (cache s) -> city_name c = name ->
             fresh (clock w (ticks s)) c = false) ->
  (9 < List.length (cache s))%nat ->
  geo_endpoint w (List.length (sent s)) name (key s)
  = Response 200 (Some (GeoMatch x y)) ->
  weather_endpoint w (S (List.length (sent s))) y x (key s)
  = Response 200 (Some d) ->
  lookup_or_fetch w name s
  = (Raise ValueError_not_in_list,
     with_cache s (cache s) (S (ticks s))
       (sent s ++ [GeoRequest name (key s); WeatherRequest y x (key s)])).
Proof.
  intros Hn Hf Hl Hg Hw.
  apply find_name_fresh_none in Hf.
  rewrite (lookup_miss w _ _ (is_valid_parameter_nonblank _ Hn) Hf).
  cbv zeta. rewrite Hg. cbn [geo_outcome Z.eqb Pos.eqb].
  rewrite Hw. cbn [weather_outcome Z.eqb Pos.eqb].
  replace (9 <? List.length (cache s))%nat with true; [reflexivity|].
  symmetry. apply Nat.ltb_lt. exact Hl.
Qed.

Lemma get_via_lookup_state (name : string) (s : State) :
  is_valid_parameter name = Ret true ->
  get_and_cache_weather_city w name s
  = match lookup_state w s with
    | (Ret _, s1) => lookup_or_fetch w name s1
    | (Raise e, s1) => (Raise e, s1)
    end.
Proof.
  intros Hv. unfold lookup_state. destruct (mode s) eqn:Hm; cbn [Behaviors_eqb].
  - apply get_polling; assumption.
  - apply get_on_demand; assumption.
Qed.

Lemma lookup_state_length (s : State) :
  List.length (cache (snd (lookup_state w s))) = List.length (cache s).
Proof.
  unfold lookup_state. destruct (Behaviors_eqb _ _); [|reflexivity].
  apply update_cities_cache_length.
Qed.

End Insertion.

(** C2.  A client that holds ten entries is asked for an eleventh city;
    the place and the reading arrive, and the insertion raises the
    ValueError of [list.remove]: [self.cities.remove(0)] looks for an
    entry equal to 0 where the oldest entry was to be dropped.  Nothing is
    evicted and nothing is appended. *)
Theorem eleventh_city_raises :
  get_and_cache_weather_city calm "Kyoto" (client ten_cities ON_DEMAND)
  = (Raise ValueError_not_in_list,
     with_cache (client ten_cities ON_DEMAND) ten_cities 1
       [GeoRequest "Kyoto" "key";
        WeatherRequest 48.75%float 2.5%float "key"]).
Proof. vm_compute. reflexivity. Qed.

(** C1, as the sentence has it, fails for a client in on-demand mode
    that holds one entry for Paris, eleven minutes old: the call leaves
    two entries for Paris. *)
Lemma stale_entry_is_duplicated :
  ~ refetch_updates_in_place calm (client [entry "Paris" 0] ON_DEMAND) "Paris".
Proof.
  intros H.
  destruct H as (_ & H & _).
  - reflexivity.
  - exists (entry "Paris" 0). split; [left; reflexivity|].
    split; [reflexivity|]. vm_compute. discriminate.
  - vm_compute in H. discriminate.
Qed.

(** C1.  A client in on-demand mode holds one entry for Paris, eleven
    minutes old, and is asked for Paris.  The call fetches the place and
    the reading, returns the reading, and appends a second entry for
    Paris; the stale entry stays where it is, with its old reading and
    its old time.  The refresh of [update_cities_cache] would have
    replaced the reading and the time of that entry in place. *)
Theorem on_demand_refetch_duplicates :
  get_and_cache_weather_city calm "Paris" (client [entry "Paris" 0] ON_DEMAND)
  = (Ret reading,
     with_cache (client [entry "Paris" 0] ON_DEMAND)
       [entry "Paris" 0;
        mkCity "Paris" 48.75%float 2.5%float reading (minutes 11 + 1)]
       2
       [GeoRequest "Paris" "key";
        WeatherRequest 48.75%float 2.5%float "key"]).
Proof. vm_compute. reflexivity. Qed.

(** Where this leads: ten calls for Paris, each made when the last
    reading is eleven minutes old, leave ten entries for Paris, and the
    next call raises the ValueError of [list.remove]. *)
Lemma repeated_refetch_fills_cache :
  map city_name (cache (calls eleven_apart "Paris" 10 (client [] ON_DEMAND)))
  = repeat "Paris"%string 10
  /\ fst (get_and_cache_weather_city eleven_apart "Paris"
            (calls eleven_apart "Paris" 10 (client [] ON_DEMAND)))
     = Raise ValueError_not_in_list.
Proof. vm_compute. split; reflexivity. Qed.

(** The same in general.  A client in on-demand mode is asked for a
    city [C] whose cached entries are all ten minutes old or more; the
    cache has room, and the geocoder and the weather service answer.
    The call sends the geocoding request and the weather request,
    returns the reading, and appends an entry for [C] with the reading
    and the time of insertion.  The entries that were there stay as
    they were, the old ones for [C] among them, so the cache holds one
    more entry for [C] than before. *)
Theorem stale_entry_refetch_appends (w : World) (C : string) (s : State)
    (x y : float) (d : Dict) :
  mode s = ON_DEMAND ->
  whitespace_only C = false ->
  (forall c, In c (cache s) -> city_name c = C ->
             minutes 10 <= age (clock w (ticks s)) c) ->
  (List.length (cache s) < 10)%nat ->
  geo_endpoint w (List.length (sent s)) C (key s)
  = Response 200 (Some (GeoMatch x y)) ->
  weather_endpoint w (S (List.length (sent s))) y x (key s)
  = Response 200 (Some d) ->
  exists s',
    get_and_cache_weather_city w C s = (Ret d, s')
    /\ sent s' = sent s ++ [GeoRequest C (key s); WeatherRequest y x (key s)]
    /\ cache s' = cache s ++ [mkCity C y x d (clock w (S (ticks s)))]
    /\ List.length (filter (named C) (cache s'))
       = S (List.length (filter (named C) (cache s))).
Proof.
  intros Hm Hn Hold Hl Hg Hw.
  rewrite (get_on_demand w _ _ (is_valid_parameter_nonblank _ Hn) Hm).
  rewrite (lookup_or_fetch_appends w C s x y d Hn); try assumption.
  - eexists. split; [reflexivity|].
    unfold with_cache, cache. cbn [self cities sent].
    split; [reflexivity|]. split; [reflexivity|].
    rewrite filter_app, length_app. cbn [filter].
    unfold named at 2. cbn [city_name].
    rewrite String.eqb_refl. cbn [List.length]. lia.
  - intros c Hin Hc. unfold fresh. apply Z.ltb_ge. apply Hold; assumption.
Qed.

Lemma stale_entry_refetch_appends_witness :
  exists s',
    get_and_cache_weather_city calm "Paris" (client [entry "Paris" 0] ON_DEMAND)
    = (Ret reading, s')
    /\ sent s' = [GeoRequest "Paris" "key";
                  WeatherRequest 48.75%float 2.5%float "key"]
    /\ cache s' = [entry "Paris" 0;
                   mkCity "Paris" 48.75%float 2.5%float reading (minutes 11 + 1)]
    /\ List.length (filter (named "Paris") (cache s')) = 2%nat.
Proof.
  apply (stale_entry_refetch_appends calm "Paris"
           (client [entry "Paris" 0] ON_DEMAND) 2.5%float 48.75%float reading).
  - reflexivity.
  - reflexivity.
  - intros c [<- | []] _. vm_compute. discriminate.
  - simpl. lia.
  - reflexivity.
  - reflexivity.
Defined.

(** C4, as the sentence has it, fails for a client that holds an entry
    for Paris six minutes old: the call returns the reading it holds and
    adds nothing. *)
Lemma fresh_entry_adds_nothing :
  ~ fetch_adds_one_entry calm
      (client [entry "Paris" (minutes 5)] ON_DEMAND) "Paris".
Proof.
  intros H.
  destruct (H eq_refl ltac:(simpl; lia) 2.5%float 48.75%float reading
              (fun _ _ => eq_refl) (fun _ _ => eq_refl)) as [H1 _].
  vm_compute in H1. discriminate.
Qed.

(** C4, amended.  A client is asked for a city with a name that is not
    blank; once the polling refresh, if any, has returned, the cache
    holds no entry for that city less than ten minutes old; the cache
    has room, and the geocoder and the weather service answer.  The call
    returns the reading and appends one entry to the cache: the name,
    the coordinates the geocoder gave, the reading, and the time of
    insertion. *)
Theorem fetch_adds_entry (w : World) (name : string) (s s1 : State)
    (x y : float) (d : Dict) :
  whitespace_only name = false ->
  lookup_state w s = (Ret tt, s1) ->
  (forall c, In c (cache s1) -> city_name c = name ->
             fresh (clock w (ticks s1)) c = false) ->
  (List.length (cache s) < 10)%nat ->
  geo_endpoint w (List.length (sent s1)) name (key s1)
  = Response 200 (Some (GeoMatch x y)) ->
  weather_endpoint w (S (List.length (sent s1))) y x (key s1)
  = Response 200 (Some d) ->
  get_and_cache_weather_city w name s
  = (Ret d,
     with_cache s1
       (cache s1 ++ [mkCity name y x d (clock w (S (ticks s1)))])
       (S (S (ticks s1)))
       (sent s1 ++ [GeoRequest name (key s1); WeatherRequest y x (key s1)])).
Proof.
  intros Hn Hs Hf Hl Hg Hw.
  rewrite (get_via_lookup_state w _ _ (is_valid_parameter_nonblank _ Hn)).
  pose proof (lookup_state_length w s) as Hlen.
  rewrite Hs in *. cbn [snd] in Hlen.
  apply lookup_or_fetch_appends; try assumption.
  rewrite Hlen. exact Hl.
Qed.

Lemma fetch_adds_entry_witness :
  get_and_cache_weather_city calm "Tokyo" (client [entry "Paris" 0] POLLING)
  = (Ret reading,
     mkState
       (mkWeatherApi "key"
          [mkCity "Paris" 48.75%float 2.5%float reading (minutes 11);
           mkCity "Tokyo" 48.75%float 2.5%float reading (minutes 11 + 2)]
          POLLING)
       3
       [WeatherRequest 48.75%float 2.5%float "key";
        GeoRequest "Tokyo" "key";
        WeatherRequest 48.75%float 2.5%float "key"]).
Proof.
  apply (fetch_adds_entry calm "Tokyo" (client [entry "Paris" 0] POLLING)
           (mkState
              (mkWeatherApi "key"
                 [mkCity "Paris" 48.75%float 2.5%float reading (minutes 11)]
                 POLLING)
              1 [WeatherRequest 48.75%float 2.5%float "key"])
           2.5%float 48.75%float reading).
  - reflexivity.
  - vm_compute. reflexivity.
  - intros c [<- | []] Hc. discriminate Hc.
  - simpl. lia.
  - reflexivity.
  - reflexivity.
Defined.

(** ** Serving from the cache *)

Section Serving.

Variable w : World.

Lemma find_over_app {A} (f : A -> bool) (l1 l2 : list A) :
  find f (l1 ++ l2)
  = match find f l1 with Some a => Some a | None => find f l2 end.
Proof.
  induction l1 as [|a l1 IH]; cbn; [reflexivity|].
  destruct (f a); [reflexivity | exact IH].
Qed.

(** A call that returns with a longer cache has missed, fetched and
    appended. *)
Lemma lookup_or_fetch_created (name : string) (s s1 : State) (p : Dict) :
  is_valid_parameter name = Ret true ->
  lookup_or_fetch w name s = (Ret p, s1) ->
  List.length (cache s1) = S (List.length (cache s)) ->
  find (name_fresh name (clock w (ticks s))) (cache s) = None
  /\ exists la lo,
      s1 = with_cache s
             (cache s ++ [mkCity name la lo p (clock w (S (ticks s)))])
             (S (S (ticks s)))
             (sent s ++ [GeoRequest name (key s); WeatherRequest la lo (key s)]).
Proof.
  intros Hv Hrun Hlen.
  destruct (find (name_fresh name (clock w (ticks s))) (cache s)) as [c|] eqn:Hf.
  - rewrite (lookup_hit w _ _ _ Hf) in Hrun. injection Hrun as _ <-.
    unfold cache, with_cache in Hlen. cbn [self cities] in Hlen. lia.
  - split; [reflexivity|].
    rewrite (lookup_miss w _ _ Hv Hf) in Hrun. cbv zeta in Hrun.
    destruct (geo_outcome _) as [[[x y]|]|e].
    + destruct (weather_outcome _) as [d|e].
      * destruct (9 <? List.length (cache s))%nat; [discriminate|].
        injection Hrun as -> <-. exists y, x. reflexivity.
      * discriminate.
    + injection Hrun as _ <-.
      unfold cache, with_cache in Hlen. cbn [self cities] in Hlen. lia.
    + discriminate.
Qed.

End Serving.

(** C5.  A client in on-demand mode is asked for a city [C]; the call
    returns a reading [p] and has created an entry [e].  A second call
    for [C], made while [e] is less than ten minutes old, returns the
    reading of a cached entry for [C] and sends no request: the
    requests of the two calls together are one geocoding request and one
    weather request.  The reading is [p] when the clock has not gone
    back between the two calls. *)
Theorem second_call_served_from_cache (w : World) (C : string)
    (s s1 : State) (p : Dict) (e : City) :
  mode s = ON_DEMAND ->
  get_and_cache_weather_city w C s = (Ret p, s1) ->
  List.length (cache s1) = S (List.length (cache s)) ->
  nth_error (cache s1) (List.length (cache s)) = Some e ->
  age (clock w (ticks s1)) e < minutes 10 ->
  exists p',
    get_and_cache_weather_city w C s1
    = (Ret p', with_cache s1 (cache s1) (S (ticks s1)) (sent s1))
    /\ (exists c, In c (cache s1) /\ city_name c = C /\ weather_data c = p')
    /\ (clock w (ticks s) <= clock w (ticks s1) -> p' = p)
    /\ sent s1 = sent s ++ [GeoRequest C (key s);
                            WeatherRequest (lat e) (lon e) (key s)].
Proof.
  intros Hm Hrun Hlen He Hage.
  destruct (is_valid_parameter_cases C) as [Hv|Hv];
    [| rewrite (get_blank w _ _ Hv) in Hrun; discriminate].
  rewrite (get_on_demand w _ _ Hv Hm) in Hrun.
  destruct (lookup_or_fetch_created w C s s1 p Hv Hrun Hlen)
    as (Hmiss & la & lo & Hs1).
  set (e0 := mkCity C la lo p (clock w (S (ticks s)))) in Hs1.
  assert (Hc1 : cache s1 = cache s ++ [e0]) by (rewrite Hs1; reflexivity).
  assert (Hee : e = e0).
  { rewrite Hc1, nth_error_app2, Nat.sub_diag in He by lia.
    injection He as <-. reflexivity. }
  assert (Hm1 : mode s1 = ON_DEMAND) by (rewrite Hs1; exact Hm).
  assert (Hfresh : name_fresh C (clock w (ticks s1)) e0 = true).
  { rewrite name_fresh_test. unfold named, fresh. cbn [city_name e0].
    rewrite String.eqb_refl, <- Hee. cbn. apply Z.ltb_lt. exact Hage. }
  rewrite (get_on_demand w _ _ Hv Hm1).
  destruct (find (name_fresh C (clock w (ticks s1))) (cache s1)) as [c|] eqn:Hf.
  - exists (weather_data c).
    split; [apply lookup_hit; exact Hf|].
    pose proof (find_some _ _ Hf) as [Hin Hc].
    rewrite name_fresh_test in Hc. apply andb_true_iff in Hc as [Hc _].
    apply String.eqb_eq in Hc.
    split; [exists c; auto|]. split.
    + intros Hclock.
      rewrite Hc1, find_over_app in Hf.
      replace (find (name_fresh C (clock w (ticks s1))) (cache s)) with
        (@None City) in Hf.
      * cbn [find] in Hf. rewrite Hfresh in Hf. injection Hf as <-.
        reflexivity.
      * symmetry. apply find_name_fresh_none. intros c' Hin' Hn'.
        pose proof (proj1 (find_name_fresh_none _ _ _) Hmiss c' Hin' Hn') as H0.
        unfold fresh, age in *. apply Z.ltb_ge in H0. apply Z.ltb_ge. lia.
    + rewrite Hee, Hs1. reflexivity.
  - exfalso.
    pose proof (find_none _ _ Hf e0) as H0.
    rewrite Hfresh in H0. discriminate H0.
    rewrite Hc1. apply in_or_app. right. left. reflexivity.
Qed.

Lemma second_call_served_from_cache_witness :
  exists p',
    get_and_cache_weather_city calm "Paris"
      (mkState
         (mkWeatherApi "key"
            [mkCity "Paris" 48.75%float 2.5%float reading (minutes 11 + 1)]
            ON_DEMAND)
         2 [GeoRequest "Paris" "key";
            WeatherRequest 48.75%float 2.5%float "key"])
    = (Ret p',
       mkState
         (mkWeatherApi "key"
            [mkCity "Paris" 48.75%float 2.5%float reading (minutes 11 + 1)]
            ON_DEMAND)
         3 [GeoRequest "Paris" "key";
            WeatherRequest 48.75%float 2.5%float "key"])
    /\ (exists c,
          In c [mkCity "Paris" 48.75%float 2.5%float reading (minutes 11 + 1)]
          /\ city_name c = "Paris"%string /\ weather_data c = p')
    /\ (minutes 11 + 0 <= minutes 11 + 2 -> p' = reading)
    /\ [GeoRequest "Paris" "key"; WeatherRequest 48.75%float 2.5%float "key"]
       = [] ++ [GeoRequest "Paris" "key";
                WeatherRequest 48.75%float 2.5%float "key"].
Proof.
  apply (second_call_served_from_cache calm "Paris" (client [] ON_DEMAND)
           (mkState
              (mkWeatherApi "key"
                 [mkCity "Paris" 48.75%float 2.5%float reading (minutes 11 + 1)]
                 ON_DEMAND)
              2 [GeoRequest "Paris" "key";
                 WeatherRequest 48.75%float 2.5%float "key"])
           reading
           (mkCity "Paris" 48.75%float 2.5%float reading (minutes 11 + 1))).
  - reflexivity.
  - vm_compute. reflexivity.
  - reflexivity.
  - reflexivity.
  - vm_compute. reflexivity.
Defined.

(** ** Polling *)

Section Polling.

Variable w : World.

(** The requests of a complete pass are the refresh requests of the
    stale entries, in the order of the cache. *)
Lemma refreshed_requests (t : datetime) (k : string) (n : nat)
    (cs cs' : list City) (reqs : list Request) :
  refreshed w t k n cs cs' reqs ->
  reqs = map (refresh_request k) (filter (stale t) cs).
Proof.
  induction 1 as [ n | n c cs cs' reqs Hs _ IH | n c d cs cs' reqs Hs _ _ _ IH ];
    cbn [filter map]; [reflexivity | |]; rewrite Hs; [exact IH|].
  cbn [map]. f_equal. exact IH.
Qed.

(** A complete pass exists as soon as the weather service answers and
    the cached names are not blank. *)
Lemma refreshed_exists (t : datetime) (k : string) (cs : list City) :
  (forall n la lo, exists d,
      weather_endpoint w n la lo k = Response 200 (Some d)) ->
  Forall (fun c => whitespace_only (city_name c) = false) cs ->
  forall n, exists cs' reqs, refreshed w t k n cs cs' reqs.
Proof.
  intros Hw Hnames. induction Hnames as [|c cs Hc _ IH]; intros n.
  - exists [], []. constructor.
  - destruct (stale t c) eqn:Hs.
    + destruct (Hw n (lat c) (lon c)) as [d Hd].
      destruct (IH (S n)) as (cs' & reqs & Hr).
      eexists _, _. eapply refreshed_fetch; eassumption.
    + destruct (IH n) as (cs' & reqs & Hr).
      eexists _, _. eapply refreshed_keep; eassumption.
Qed.



End Polling.

(** C6.  A client in polling mode is asked for a city with a name that
    is not blank.  The call runs the refresh and then, if the refresh
    has returned, the lookup and the fetch for the requested city, from
    the state the refresh has left; if the refresh raises, so does the
    call, and nothing is looked up.  When the refresh goes through
    ([refreshed]: every entry older than ten minutes fetched again at
    its stored coordinates, its reading and its time replaced in place),
    its requests are one for each stale entry, in the order of the
    cache, and whatever the call then sends for the requested city comes
    after them in the log. *)
Theorem polling_refreshes_before_lookup (w : World) (name : string)
    (s : State) :
  mode s = POLLING ->
  whitespace_only name = false ->
  get_and_cache_weather_city w name s
  = match update_cities_cache w s with
    | (Ret _, s1) => lookup_or_fetch w name s1
    | (Raise e, s1) => (Raise e, s1)
    end
  /\ forall (cs1 : list City) (reqs : list Request),
      refreshed w (clock w (ticks s)) (key s) (List.length (sent s))
                (cache s) cs1 reqs ->
      reqs = map (refresh_request (key s))
                 (filter (stale (clock w (ticks s))) (cache s))
      /\ update_cities_cache w s
         = (Ret tt, with_cache s cs1 (S (ticks s)) (sent s ++ reqs))
      /\ exists more,
           sent (snd (get_and_cache_weather_city w name s))
           = (sent s ++ reqs) ++ more
           /\ (more = [] \/ exists tl, more = GeoRequest name (key s) :: tl).
Proof.
  intros Hm Hn.
  pose proof (is_valid_parameter_nonblank _ Hn) as Hv.
  split; [exact (get_polling w _ _ Hv Hm)|].
  intros cs1 reqs Hr.
  split; [exact (refreshed_requests w _ _ _ _ _ _ Hr)|].
  split; [exact (update_cities_cache_ok w s cs1 reqs Hr)|].
  rewrite (get_polling w _ _ Hv Hm), (update_cities_cache_ok w s cs1 reqs Hr).
  destruct (lookup_or_fetch_frame w name
              (with_cache s cs1 (S (ticks s)) (sent s ++ reqs)) Hv)
    as (cs' & n' & more & -> & _ & Hmore).
  exists more. split; [reflexivity | exact Hmore].
Qed.

(** The scenario of the specification: one entry for Paris, eleven
    minutes old, and a call for Tokyo. *)
Lemma polling_refreshes_before_lookup_witness :
  update_cities_cache calm (client [entry "Paris" 0] POLLING)
  = (Ret tt,
     with_cache (client [entry "Paris" 0] POLLING)
       [refreshed_city (entry "Paris" 0) reading (minutes 11)] 1
       [refresh_request "key" (entry "Paris" 0)])
  /\ exists more,
       sent (snd (get_and_cache_weather_city calm "Tokyo"
                    (client [entry "Paris" 0] POLLING)))
       = [refresh_request "key" (entry "Paris" 0)] ++ more
       /\ (more = [] \/ exists tl, more = GeoRequest "Tokyo" "key" :: tl).
Proof.
  destruct (polling_refreshes_before_lookup calm "Tokyo"
              (client [entry "Paris" 0] POLLING) eq_refl eq_refl)
    as [_ H].
  destruct (H [refreshed_city (entry "Paris" 0) reading (minutes 11)]
              [refresh_request "key" (entry "Paris" 0)]) as (_ & Hu & Hm).
  - apply refreshed_fetch; [reflexivity | reflexivity | reflexivity |].
    apply refreshed_nil.
  - split; [exact Hu | exact Hm].
Defined.

(** ** The ten-minute boundary *)



(** * Further properties *)

(** ** The validator *)

(** X1.  [is_valid_parameter] returns [True] on the strings that hold a
    character that is not white space, raises its ValueError on the
    others, and never returns [False]. *)
Theorem is_valid_parameter_accepts (s : string) :
  (is_valid_parameter s = Ret true <-> whitespace_only s = false)
  /\ (is_valid_parameter s = Raise ValueError_invalid_parameter
      <-> whitespace_only s = true)
  /\ is_valid_parameter s <> Ret false.
Proof.
  destruct (whitespace_only s) eqn:E.
  - rewrite (is_valid_parameter_blank s E).
    repeat split; intros; try discriminate; reflexivity.
  - rewrite (is_valid_parameter_nonblank s E).
    repeat split; intros; try discriminate; reflexivity.
Qed.

(** ** The two fetches *)

Section Fetches.

Variable w : World.

Lemma geo_outcome_raises (r : http_result geo_json) (e : exn) :
  geo_outcome r = Raise e ->
  e = RuntimeError_failed_coordinates \/ e = MalformedGeocodeJson
  \/ exists code, code <> 200 /\ e = ValueError_invalid_api_response code.
Proof.
  destruct r as [|code body]; cbn.
  - intros H. injection H as <-. auto.
  - destruct (Z.eqb_spec code 200) as [->|Hc].
    + destruct body as [[ | x y | ]|]; intros H; try discriminate;
        injection H as <-; auto.
    + intros H. injection H as <-. right. right. exists code. auto.
Qed.

Lemma weather_outcome_raises (r : http_result Dict) (e : exn) :
  weather_outcome r = Raise e ->
  e = RuntimeError_failed_weather
  \/ exists code, code <> 200 /\ e = ValueError_invalid_api_response code.
Proof.
  destruct r as [|code body]; cbn.
  - intros H. injection H as <-. auto.
  - destruct (Z.eqb_spec code 200) as [->|Hc].
    + destruct body; intros H; try discriminate. injection H as <-. auto.
    + intros H. injection H as <-. right. exists code. auto.
Qed.

End Fetches.

(** X2.  [get_city_lon_lat] on a name that is not blank sends one
    request, the geocoding request for that name with the key of the
    client, and changes nothing else.  A failure of the transport and a
    body that does not decode raise the RuntimeError of the method; a
    status other than 200 raises the ValueError of the validator with
    that status, which the [except] clause lets through; an empty answer
    gives the empty dictionary; a match gives its coordinates. *)
Theorem get_city_lon_lat_outcomes (w : World) (name : string) (s : State) :
  whitespace_only name = false ->
  snd (get_city_lon_lat w name s)
  = with_cache s (cache s) (ticks s) (sent s ++ [GeoRequest name (key s)])
  /\ (geo_endpoint w (List.length (sent s)) name (key s) = Transport_failure ->
      fst (get_city_lon_lat w name s) = Raise RuntimeError_failed_coordinates)
  /\ (forall code body,
        geo_endpoint w (List.length (sent s)) name (key s) = Response code body ->
        code <> 200 ->
        fst (get_city_lon_lat w name s)
        = Raise (ValueError_invalid_api_response code))
  /\ (geo_endpoint w (List.length (sent s)) name (key s) = Response 200 None ->
      fst (get_city_lon_lat w name s) = Raise RuntimeError_failed_coordinates)
  /\ (geo_endpoint w (List.length (sent s)) name (key s)
      = Response 200 (Some GeoNoMatch) ->
      fst (get_city_lon_lat w name s) = Ret None)
  /\ (forall x y,
        geo_endpoint w (List.length (sent s)) name (key s)
        = Response 200 (Some (GeoMatch x y)) ->
        fst (get_city_lon_lat w name s) = Ret (Some (x, y)))
  /\ (geo_endpoint w (List.length (sent s)) name (key s)
      = Response 200 (Some GeoMalformed) ->
      fst (get_city_lon_lat w name s) = Raise MalformedGeocodeJson).
Proof.
  intros Hn.
  rewrite (get_city_lon_lat_run w _ s (is_valid_parameter_nonblank _ Hn)).
  cbn [fst snd]. split; [reflexivity|].
  repeat split; try (intros H; rewrite H; reflexivity).
  - intros code body H Hc. rewrite H. cbn.
    apply Z.eqb_neq in Hc. rewrite Hc. reflexivity.
  - intros x y H. rewrite H. reflexivity.
Qed.

(** X3.  [_send_request_to_get_weather_city_json] on a name that is not
    blank sends one request, the weather request for the coordinates
    with the key of the client, and changes nothing else.  A failure of
    the transport and a body that does not decode raise the RuntimeError
    of the method, a status other than 200 the ValueError of the
    validator with that status, and a decoded body is returned as it
    is.  On a blank name the method raises before it sends anything. *)
Theorem send_request_outcomes (w : World) (name : string) (la lo : float)
    (s : State) :
  (whitespace_only name = true ->
   _send_request_to_get_weather_city_json w name la lo s
   = (Raise ValueError_invalid_parameter, s))
  /\ (whitespace_only name = false ->
      snd (_send_request_to_get_weather_city_json w name la lo s)
      = with_cache s (cache s) (ticks s)
          (sent s ++ [WeatherRequest la lo (key s)])
      /\ (weather_endpoint w (List.length (sent s)) la lo (key s)
          = Transport_failure ->
          fst (_send_request_to_get_weather_city_json w name la lo s)
          = Raise RuntimeError_failed_weather)
      /\ (forall code body,
            weather_endpoint w (List.length (sent s)) la lo (key s)
            = Response code body ->
            code <> 200 ->
            fst (_send_request_to_get_weather_city_json w name la lo s)
            = Raise (ValueError_invalid_api_response code))
      /\ (weather_endpoint w (List.length (sent s)) la lo (key s)
          = Response 200 None ->
          fst (_send_request_to_get_weather_city_json w name la lo s)
          = Raise RuntimeError_failed_weather)
      /\ (forall d,
            weather_endpoint w (List.length (sent s)) la lo (key s)
            = Response 200 (Some d) ->
            fst (_send_request_to_get_weather_city_json w name la lo s)
            = Ret d)).
Proof.
  split.
  - intros Hb. apply send_request_blank, is_valid_parameter_blank, Hb.
  - intros Hn.
    rewrite (send_request_run w _ la lo s (is_valid_parameter_nonblank _ Hn)).
    cbn [fst snd]. split; [reflexivity|].
    repeat split; try (intros H; rewrite H; reflexivity).
    + intros code body H Hc. rewrite H. cbn.
      apply Z.eqb_neq in Hc. rewrite Hc. reflexivity.
    + intros d H. rewrite H. reflexivity.
Qed.

Lemma get_city_lon_lat_outcomes_witness :
  snd (get_city_lon_lat nowhere "Atlantis" (client [] ON_DEMAND))
  = with_cache (client [] ON_DEMAND) [] 0 ([] ++ [GeoRequest "Atlantis" "key"])
  /\ fst (get_city_lon_lat nowhere "Atlantis" (client [] ON_DEMAND)) = Ret None.
Proof.
  destruct (get_city_lon_lat_outcomes nowhere "Atlantis"
              (client [] ON_DEMAND) eq_refl)
    as (Hs & _ & _ & _ & Hn & _).
  split; [exact Hs | exact (Hn eq_refl)].
Defined.

Lemma send_request_outcomes_witness :
  _send_request_to_get_weather_city_json stormy " " 48.75%float 2.5%float
    (client [] ON_DEMAND)
  = (Raise ValueError_invalid_parameter, client [] ON_DEMAND)
  /\ fst (_send_request_to_get_weather_city_json stormy "Paris"
            48.75%float 2.5%float (client [] ON_DEMAND))
     = Raise (ValueError_invalid_api_response 503).
Proof.
  split.
  - apply (proj1 (send_request_outcomes stormy " " 48.75%float 2.5%float
                    (client [] ON_DEMAND))).
    reflexivity.
  - destruct (proj2 (send_request_outcomes stormy "Paris" 48.75%float
                       2.5%float (client [] ON_DEMAND)) eq_refl)
      as (_ & _ & Hc & _).
    apply (Hc 503 None); [reflexivity | discriminate].
Defined.

(** ** What the methods leave alone *)

Section Frames.

Variable w : World.

Lemma with_cache_twice (s : State) (cs cs' : list City) (n n' : nat)
    (l l' : list Request) :
  with_cache (with_cache s cs n l) cs' n' l' = with_cache s cs' n' l'.
Proof. reflexivity. Qed.

Lemma refresh_requests_appid (k : string) (l : list City) :
  Forall (fun r => appid r = k) (map (refresh_request k) l).
Proof. induction l; cbn; constructor; [reflexivity | assumption]. Qed.

(** The exceptions of the refresh loop. *)
Lemma update_cities_loop_raises (t : datetime) (todo : list City) :
  forall (pre : list City) (s : State) (e : exn),
  cache s = pre ++ todo ->
  fst (update_cities_loop w t (List.length pre) todo s) = Raise e ->
  fetch_exn e /\ (names_valid todo -> e <> ValueError_invalid_parameter).
Proof.
  induction todo as [|c rest IH]; intros pre s e Hc; [discriminate|].
  cbn [update_cities_loop]. rewrite stale_test.
  destruct (stale t c) eqn:Hs.
  - destruct (is_valid_parameter_cases (city_name c)) as [Hv|Hv].
    + unfold bind at 1. rewrite (update_step_run w t c pre rest s Hc Hv).
      destruct (weather_outcome _) as [d|e'] eqn:Ho.
      * set (s1 := with_cache s _ _ _).
        rewrite <- length_snoc with (x := refreshed_city c d t).
        intros H.
        destruct (IH (pre ++ [refreshed_city c d t]) s1 e) as [H1 H2];
          [ unfold s1, cache, with_cache; cbn [self cities]; apply snoc_app
          | exact H |].
        split; [exact H1|].
        intros Hn. apply H2. exact (Forall_inv_tail Hn).
      * cbn [fst]. intros H. injection H as <-.
        destruct (weather_outcome_raises _ _ Ho) as [-> | (code & Hcode & ->)].
        -- split; [right; left; reflexivity | intros _; discriminate].
        -- split; [right; right; exists code; auto | intros _; discriminate].
    + unfold bind at 1. unfold bind at 1.
      rewrite (send_request_blank w _ _ _ _ Hv). cbn [fst].
      intros H. injection H as <-.
      split; [left; reflexivity|].
      intros Hn. apply Forall_inv in Hn.
      rewrite (is_valid_parameter_nonblank _ Hn) in Hv. discriminate.
  - unfold bind at 1, ret at 1.
    rewrite <- length_snoc with (x := c). intros H.
    destruct (IH (pre ++ [c]) s e) as [H1 H2];
      [rewrite Hc; apply snoc_app | exact H |].
    split; [exact H1|].
    intros Hn. apply H2. exact (Forall_inv_tail Hn).
Qed.

Lemma update_cities_cache_raises (s : State) (e : exn) :
  fst (update_cities_cache w s) = Raise e ->
  fetch_exn e
  /\ (names_valid (cache s) -> e <> ValueError_invalid_parameter).
Proof.
  unfold update_cities_cache.
  unfold bind at 1, datetime_now at 1.
  unfold bind at 1, get_cities at 1. cbn [self ticks sent].
  set (s1 := mkState (self s) (S (ticks s)) (sent s)).
  change (cities (self s)) with (cache s1).
  apply (update_cities_loop_raises (clock w (ticks s)) (cache s1) [] s1 e).
  reflexivity.
Qed.

(** Everything a miss or a hit does to the state, and the exceptions of
    the two. *)
Lemma lookup_or_fetch_effect (name : string) (s : State) :
  is_valid_parameter name = Ret true ->
  exists (cs' : list City) (n' : nat) (more : list Request),
    snd (lookup_or_fetch w name s) = with_cache s cs' n' (sent s ++ more)
    /\ (ticks s < n')%nat
    /\ Forall (fun r => appid r = key s) more
    /\ (cs' = cache s
        \/ exists c, cs' = cache s ++ [c] /\ city_name c = name
                     /\ fst (lookup_or_fetch w name s) = Ret (weather_data c))
    /\ (forall e, fst (lookup_or_fetch w name s) = Raise e ->
                  cs' = cache s /\ call_exn e
                  /\ e <> ValueError_invalid_parameter).
Proof.
  intros Hv.
  destruct (find (name_fresh name (clock w (ticks s))) (cache s)) as [c|] eqn:Hf.
  - rewrite (lookup_hit w _ _ _ Hf).
    exists (cache s), (S (ticks s)), []. rewrite app_nil_r. cbn [fst snd].
    repeat split; auto; discriminate.
  - rewrite (lookup_miss w _ _ Hv Hf). cbv zeta.
    destruct (geo_outcome _) as [[[x y]|]|e] eqn:Hg.
    + destruct (weather_outcome _) as [d|e] eqn:Hw.
      * destruct (9 <? List.length (cache s))%nat eqn:Hl.
        -- eexists _, _, _. cbn [fst snd]. split; [reflexivity|].
           split; [lia|]. split; [repeat constructor|].
           split; [left; reflexivity|].
           intros e H. injection H as <-.
           split; [reflexivity|]. split; [|discriminate].
           right. right. right. reflexivity.
        -- eexists _, _, _. cbn [fst snd]. split; [reflexivity|].
           split; [lia|]. split; [repeat constructor|].
           split; [|discriminate].
           right. eexists. split; [reflexivity|]. split; reflexivity.
      * eexists _, _, _. cbn [fst snd]. split; [reflexivity|].
        split; [lia|]. split; [repeat constructor|].
        split; [left; reflexivity|].
        intros e' H. injection H as <-.
        split; [reflexivity|].
        destruct (weather_outcome_raises _ _ Hw) as [-> | (code & Hc & ->)].
        -- split; [|discriminate]. left. right. left. reflexivity.
        -- split; [|discriminate]. left. right. right. exists code. auto.
    + eexists _, _, _. cbn [fst snd]. split; [reflexivity|].
      split; [lia|]. split; [repeat constructor|].
      split; [left; reflexivity|]. discriminate.
    + eexists _, _, _. cbn [fst snd]. split; [reflexivity|].
      split; [lia|]. split; [repeat constructor|].
      split; [left; reflexivity|].
      intros e' H. injection H as <-.
      split; [reflexivity|].
      destruct (geo_outcome_raises _ _ Hg)
        as [-> | [-> | (code & Hc & ->)]].
      * split; [|discriminate]. right. left. reflexivity.
      * split; [|discriminate]. right. right. left. reflexivity.
      * split; [|discriminate]. left. right. right. exists code. auto.
Qed.

End Frames.

Lemma fetch_exn_not_request : ~ fetch_exn RequestException.
Proof.
  intros [H | [H | (code & _ & H)]]; discriminate.
Qed.

Lemma call_exn_not_request : ~ call_exn RequestException.
Proof.
  intros [H | [H | [H | H]]]; try discriminate.
  exact (fetch_exn_not_request H).
Qed.

Lemma valid_nonblank (name : string) :
  is_valid_parameter name = Ret true -> whitespace_only name = false.
Proof.
  intros Hv. destruct (whitespace_only name) eqn:E; [|reflexivity].
  rewrite (is_valid_parameter_blank _ E) in Hv. discriminate.
Qed.

Lemma get_raises (w : World) (name : string) (s : State) (e : exn) :
  fst (get_and_cache_weather_city w name s) = Raise e ->
  call_exn e
  /\ (names_valid (cache s) -> e = ValueError_invalid_parameter ->
      whitespace_only name = true).
Proof.
  destruct (is_valid_parameter_cases name) as [Hv|Hv].
  - destruct (mode s) eqn:Hm.
    + rewrite (get_polling w _ _ Hv Hm).
      pose proof (update_cities_cache_raises w s) as Hu.
      destruct (update_cities_cache w s) as [[[]|e'] s1]; cbn [fst] in *.
      * intros H.
        destruct (lookup_or_fetch_effect w name s1 Hv)
          as (cs' & n' & more & _ & _ & _ & _ & He).
        destruct (He e H) as (_ & Hc & Hne).
        split; [exact Hc|]. intros _ ->. contradiction.
      * intros H. injection H as <-.
        destruct (Hu e' eq_refl) as [Hf Hn].
        split; [left; exact Hf|]. intros Hnv ->.
        exfalso. exact (Hn Hnv eq_refl).
    + rewrite (get_on_demand w _ _ Hv Hm). intros H.
      destruct (lookup_or_fetch_effect w name s Hv)
        as (cs' & n' & more & _ & _ & _ & _ & He).
      destruct (He e H) as (_ & Hc & Hne).
      split; [exact Hc|]. intros _ ->. contradiction.
  - rewrite (get_blank w _ _ Hv). cbn [fst]. intros H. injection H as <-.
    split; [left; left; reflexivity|]. intros _ _.
    destruct (whitespace_only name) eqn:E; [reflexivity|].
    rewrite (is_valid_parameter_nonblank _ E) in Hv. discriminate.
Qed.

(** X4.  No method lets a [requests.RequestException] out: the two
    fetches wrap it in their RuntimeError, and the refresh and the call
    raise nothing the fetches do not, the ValueError of [list.remove]
    apart. *)
Theorem request_exception_never_escapes (w : World) (name : string)
    (la lo : float) (s : State) :
  fst (get_city_lon_lat w name s) <> Raise RequestException
  /\ fst (_send_request_to_get_weather_city_json w name la lo s)
     <> Raise RequestException
  /\ fst (update_cities_cache w s) <> Raise RequestException
  /\ fst (get_and_cache_weather_city w name s) <> Raise RequestException.
Proof.
  split; [|split; [|split]].
  - destruct (is_valid_parameter_cases name) as [Hv|Hv].
    + rewrite (get_city_lon_lat_run w _ s Hv). cbn [fst]. intros H.
      destruct (geo_outcome_raises _ _ H) as [H1 | [H1 | (c & _ & H1)]];
        discriminate.
    + rewrite (get_city_lon_lat_blank w _ s Hv). discriminate.
  - destruct (is_valid_parameter_cases name) as [Hv|Hv].
    + rewrite (send_request_run w _ la lo s Hv). cbn [fst]. intros H.
      destruct (weather_outcome_raises _ _ H) as [H1 | (c & _ & H1)];
        discriminate.
    + rewrite (send_request_blank w _ la lo s Hv). discriminate.
  - intros H. apply fetch_exn_not_request.
    exact (proj1 (update_cities_cache_raises w s _ H)).
  - intros H. apply call_exn_not_request.
    exact (proj1 (get_raises w name s _ H)).
Qed.

(** X5.  An exception of [get_and_cache_weather_city] is the ValueError
    of the validator, the ValueError of a status other than 200, the
    RuntimeError of one of the two fetches, the error of a geocoding
    answer of the wrong shape, or the ValueError of [list.remove].  When
    the cached names are not blank, the ValueError of the validator
    means that the name asked for is blank. *)
Theorem get_and_cache_exceptions (w : World) (name : string) (s : State)
    (e : exn) :
  fst (get_and_cache_weather_city w name s) = Raise e ->
  (e = ValueError_invalid_parameter
   \/ (exists code, code <> 200 /\ e = ValueError_invalid_api_response code)
   \/ e = RuntimeError_failed_coordinates
   \/ e = RuntimeError_failed_weather
   \/ e = MalformedGeocodeJson
   \/ e = ValueError_not_in_list)
  /\ (names_valid (cache s) -> e = ValueError_invalid_parameter ->
      whitespace_only name = true).
Proof.
  intros H. destruct (get_raises w name s e H) as [Hc Hb].
  split; [|exact Hb].
  destruct Hc as [[H1 | [H1 | H1]] | [H1 | [H1 | H1]]]; auto 7.
Qed.

Lemma get_and_cache_exceptions_witness :
  (ValueError_invalid_api_response 503 = ValueError_invalid_parameter
   \/ (exists code, code <> 200
        /\ ValueError_invalid_api_response 503
           = ValueError_invalid_api_response code)
   \/ ValueError_invalid_api_response 503 = RuntimeError_failed_coordinates
   \/ ValueError_invalid_api_response 503 = RuntimeError_failed_weather
   \/ ValueError_invalid_api_response 503 = MalformedGeocodeJson
   \/ ValueError_invalid_api_response 503 = ValueError_not_in_list)
  /\ (names_valid (cache (client [] ON_DEMAND)) ->
      ValueError_invalid_api_response 503 = ValueError_invalid_parameter ->
      whitespace_only "Paris" = true).
Proof.
  apply (get_and_cache_exceptions stormy "Paris" (client [] ON_DEMAND)).
  vm_compute. reflexivity.
Defined.

(** ** Invariants of the cache *)

Section Invariants.

Variable w : World.

Lemma kept_same_place (t : datetime) (c c' : City) :
  kept_or_refreshed t c c' -> same_place c c'.
Proof.
  intros [-> | (_ & d & ->)]; repeat split.
Qed.

Lemma kept_names_valid (t : datetime) (cs cs' : list City) :
  Forall2 (kept_or_refreshed t) cs cs' -> names_valid cs -> names_valid cs'.
Proof.
  induction 1 as [|c c' l l' Hk _ IH]; intros Hn; [constructor|].
  constructor.
  - destruct (kept_same_place _ _ _ Hk) as (-> & _). exact (Forall_inv Hn).
  - apply IH. exact (Forall_inv_tail Hn).
Qed.

Lemma update_names_valid (s : State) :
  names_valid (cache s) -> names_valid (cache (snd (update_cities_cache w s))).
Proof.
  intros Hn.
  destruct (update_cities_cache_frame w s) as (cs' & reqs & rest & -> & Hf & _).
  exact (kept_names_valid _ _ _ Hf Hn).
Qed.

Lemma lookup_names_valid (name : string) (s : State) :
  is_valid_parameter name = Ret true ->
  names_valid (cache s) ->
  names_valid (cache (snd (lookup_or_fetch w name s))).
Proof.
  intros Hv Hn.
  destruct (lookup_or_fetch_effect w name s Hv)
    as (cs' & n' & more & -> & _ & _ & [-> | (c & -> & Hc & _)] & _);
    unfold cache at 1, with_cache; cbn [self cities]; [exact Hn|].
  apply Forall_app. split; [exact Hn|].
  constructor; [|constructor]. rewrite Hc. apply valid_nonblank, Hv.
Qed.

End Invariants.

(** X6.  The names in the cache are never blank: a cache whose names
    all pass the validator is one still after
    [get_and_cache_weather_city], [update_cities_cache] and
    [remove_city_by_name], however they end; and on such a cache the
    refresh never raises the ValueError of the validator. *)
Theorem cached_names_stay_valid (w : World) (name : string) (s : State) :
  names_valid (cache s) ->
  names_valid (cache (snd (get_and_cache_weather_city w name s)))
  /\ names_valid (cache (snd (update_cities_cache w s)))
  /\ names_valid (cache (snd (remove_city_by_name name s)))
  /\ fst (update_cities_cache w s) <> Raise ValueError_invalid_parameter.
Proof.
  intros Hn. split; [|split; [|split]].
  - destruct (is_valid_parameter_cases name) as [Hv|Hv].
    + destruct (mode s) eqn:Hm.
      * rewrite (get_polling w _ _ Hv Hm).
        pose proof (update_names_valid w s Hn) as Hu.
        destruct (update_cities_cache w s) as [[[]|e] s1]; cbn [snd] in *.
        -- apply lookup_names_valid; assumption.
        -- exact Hu.
      * rewrite (get_on_demand w _ _ Hv Hm).
        apply lookup_names_valid; assumption.
    + rewrite (get_blank w _ _ Hv). exact Hn.
  - apply update_names_valid, Hn.
  - unfold names_valid. cbn. apply Forall_forall. intros c Hin.
    apply filter_In in Hin as [Hin _].
    exact (proj1 (Forall_forall _ _) Hn c Hin).
  - intros H.
    exact (proj2 (update_cities_cache_raises w s _ H) Hn eq_refl).
Qed.

Lemma cached_names_stay_valid_witness :
  names_valid (cache (snd (get_and_cache_weather_city calm "Tokyo"
                             (client [entry "Paris" 0] POLLING))))
  /\ names_valid (cache (snd (update_cities_cache calm
                                (client [entry "Paris" 0] POLLING))))
  /\ names_valid (cache (snd (remove_city_by_name "Tokyo"
                                (client [entry "Paris" 0] POLLING))))
  /\ fst (update_cities_cache calm (client [entry "Paris" 0] POLLING))
     <> Raise ValueError_invalid_parameter.
Proof.
  apply (cached_names_stay_valid calm "Tokyo"
           (client [entry "Paris" 0] POLLING)).
  constructor; [reflexivity | constructor].
Defined.

Section MoreFrames.

Variable w : World.

Lemma get_frame (name : string) (s : State) :
  exists (cs' : list City) (n' : nat) (more : list Request),
    snd (get_and_cache_weather_city w name s)
    = with_cache s cs' n' (sent s ++ more)
    /\ (ticks s <= n')%nat
    /\ Forall (fun r => appid r = key s) more.
Proof.
  destruct (is_valid_parameter_cases name) as [Hv|Hv].
  - destruct (mode s) eqn:Hm.
    + rewrite (get_polling w _ _ Hv Hm).
      destruct (update_cities_cache_frame w s)
        as (cs1 & reqs & rest & Hst & _ & Hl).
      assert (Hr : Forall (fun r => appid r = key s) reqs).
      { pose proof (refresh_requests_appid (key s)
                      (filter (stale (clock w (ticks s))) (cache s))) as H.
        rewrite Hl in H. apply Forall_app in H. tauto. }
      destruct (update_cities_cache w s) as [[[]|e] s1]; cbn [snd] in *.
      * destruct (lookup_or_fetch_effect w name s1 Hv)
          as (cs' & n' & more & -> & Hn & Hm' & _).
        subst s1. rewrite with_cache_twice.
        exists cs', n', (reqs ++ more).
        split; [cbn [sent with_cache]; rewrite app_assoc; reflexivity|].
        split; [cbn [ticks with_cache] in Hn; lia|].
        apply Forall_app. split; [exact Hr | exact Hm'].
      * exists cs1, (S (ticks s)), reqs.
        split; [exact Hst|]. split; [lia | exact Hr].
    + rewrite (get_on_demand w _ _ Hv Hm).
      destruct (lookup_or_fetch_effect w name s Hv)
        as (cs' & n' & more & -> & Hn & Hm' & _).
      exists cs', n', more. split; [reflexivity|]. split; [lia | exact Hm'].
  - rewrite (get_blank w _ _ Hv).
    exists (cache s), (ticks s), []. cbn [snd].
    rewrite app_nil_r, with_cache_same. split; [reflexivity|].
    split; [lia | constructor].
Qed.

End MoreFrames.

(** X7.  However [get_and_cache_weather_city] and [update_cities_cache]
    end, they leave the key and the behavior of the client as they
    were, they keep the requests already sent and add theirs after
    them, and every request they add carries the key of the client. *)
Theorem client_frame (w : World) (name : string) (s : State) :
  (key (snd (get_and_cache_weather_city w name s)) = key s
   /\ mode (snd (get_and_cache_weather_city w name s)) = mode s
   /\ exists more,
        sent (snd (get_and_cache_weather_city w name s)) = sent s ++ more
        /\ Forall (fun r => appid r = key s) more)
  /\ (key (snd (update_cities_cache w s)) = key s
      /\ mode (snd (update_cities_cache w s)) = mode s
      /\ exists more,
           sent (snd (update_cities_cache w s)) = sent s ++ more
           /\ Forall (fun r => appid r = key s) more).
Proof.
  split.
  - destruct (get_frame w name s) as (cs' & n' & more & -> & _ & Hm).
    split; [reflexivity|]. split; [reflexivity|].
    exists more. split; [reflexivity | exact Hm].
  - destruct (update_cities_cache_frame w s)
      as (cs1 & reqs & rest & -> & _ & Hl).
    split; [reflexivity|]. split; [reflexivity|].
    exists reqs. split; [reflexivity|].
    pose proof (refresh_requests_appid (key s)
                  (filter (stale (clock w (ticks s))) (cache s))) as H.
    rewrite Hl in H. apply Forall_app in H. tauto.
Qed.

(** ** More on the refresh *)

(** X8.  However [update_cities_cache] ends, the cache has the entries it
    had, in the same order, each with its name and its coordinates; an
    entry is as it was, or it was older than ten minutes and now carries
    the time the refresh has read. *)
Theorem refresh_keeps_places (w : World) (s : State) :
  Forall2 (fun c c' =>
             same_place c c'
             /\ (c' = c
                 \/ stale (clock w (ticks s)) c = true
                    /\ created_datetime c' = clock w (ticks s)))
          (cache s) (cache (snd (update_cities_cache w s))).
Proof.
  destruct (update_cities_cache_frame w s) as (cs' & reqs & rest & -> & Hf & _).
  unfold cache at 2, with_cache. cbn [self cities].
  induction Hf as [|c c' l l' Hk _ IH]; constructor; [|exact IH].
  split; [exact (kept_same_place _ _ _ Hk)|].
  destruct Hk as [-> | (Hs & d & ->)]; [left; reflexivity|].
  right. split; [exact Hs | reflexivity].
Qed.

Lemma refreshed_all_kept (w : World) (t : datetime) (k : string) (n : nat)
    (cs : list City) :
  (forall c, In c cs -> stale t c = false) -> refreshed w t k n cs cs [].
Proof.
  induction cs as [|c cs IH]; intros H; [constructor|].
  apply refreshed_keep.
  - apply H. left. reflexivity.
  - apply IH. intros c' Hin. apply H. right. exact Hin.
Qed.

(** X9.  When no cached entry is older than ten minutes, the empty cache
    included, [update_cities_cache] reads the clock, returns, sends
    nothing and leaves the cache as it is. *)
Theorem refresh_without_stale_entry (w : World) (s : State) :
  (forall c, In c (cache s) -> age (clock w (ticks s)) c <= minutes 10) ->
  update_cities_cache w s
  = (Ret tt, with_cache s (cache s) (S (ticks s)) (sent s)).
Proof.
  intros H.
  rewrite (update_cities_cache_ok w s (cache s) []).
  - rewrite app_nil_r. reflexivity.
  - apply refreshed_all_kept. intros c Hin.
    unfold stale. apply Z.ltb_ge. apply H. exact Hin.
Qed.

Lemma refresh_without_stale_entry_witness :
  update_cities_cache calm (client [entry "Paris" (minutes 1)] POLLING)
  = (Ret tt,
     with_cache (client [entry "Paris" (minutes 1)] POLLING)
       [entry "Paris" (minutes 1)] 1 []).
Proof.
  apply (refresh_without_stale_entry calm
           (client [entry "Paris" (minutes 1)] POLLING)).
  intros c [<- | []]. vm_compute. discriminate.
Defined.

Section Failure.

Variable w : World.

(** The loop refreshes a first stretch of the cache and stops at the
    entry whose fetch fails. *)
Lemma update_cities_loop_stops (t : datetime) (k : string) (n : nat)
    (pre pre' : list City) (reqs : list Request) :
  refreshed w t k n pre pre' reqs ->
  forall (pre0 : list City) (s : State) (c : City) (rest : list City)
         (e : exn),
  k = key s -> n = List.length (sent s) ->
  cache s = pre0 ++ pre ++ c :: rest ->
  stale t c = true ->
  is_valid_parameter (city_name c) = Ret true ->
  weather_outcome
    (weather_endpoint w (n + List.length reqs) (lat c) (lon c) k) = Raise e ->
  update_cities_loop w t (List.length pre0) (pre ++ c :: rest) s
  = (Raise e,
     with_cache s (pre0 ++ pre' ++ c :: rest) (ticks s)
       (sent s ++ reqs ++ [refresh_request k c])).
Proof.
  induction 1 as [ n | n c0 cs cs' reqs Hs0 _ IH
                 | n c0 d cs cs' reqs Hs0 Hn0 He0 _ IH ];
    intros pre0 s c rest e Hk Hn Hc Hs Hv Ho.
  - cbn [app] in *. cbn [update_cities_loop]. rewrite stale_test, Hs.
    unfold bind at 1. rewrite (update_step_run w t c pre0 rest s Hc Hv).
    cbn [List.length] in Ho. rewrite Nat.add_0_r in Ho.
    subst k n. rewrite Ho, Hc. reflexivity.
  - cbn [app] in *. cbn [update_cities_loop]. rewrite stale_test, Hs0.
    unfold bind at 1, ret at 1.
    rewrite <- length_snoc with (x := c0).
    rewrite (IH (pre0 ++ [c0]) s c rest e Hk Hn); try assumption.
    + rewrite <- app_assoc. reflexivity.
    + rewrite Hc, <- app_assoc. reflexivity.
  - cbn [app] in *. cbn [update_cities_loop]. rewrite stale_test, Hs0.
    unfold bind at 1.
    subst k n.
    rewrite (update_step_ok w t c0 d pre0 (cs ++ c :: rest) s Hc Hn0 He0).
    set (s1 := with_cache s _ _ _).
    rewrite <- length_snoc with (x := refreshed_city c0 d t).
    rewrite (IH (pre0 ++ [refreshed_city c0 d t]) s1 c rest e);
      try assumption; try reflexivity.
    + unfold s1. rewrite with_cache_twice. cbn [with_cache ticks sent].
      rewrite <- !app_assoc. reflexivity.
    + unfold s1, with_cache. cbn [sent]. rewrite length_snoc. reflexivity.
    + unfold s1, cache, with_cache. cbn [self cities].
      rewrite <- app_assoc. reflexivity.
    + cbn [List.length] in Ho. rewrite Nat.add_succ_r in Ho. exact Ho.
Qed.

Lemma refreshed_not_stale (t : datetime) (k : string) (n : nat)
    (cs cs' : list City) (reqs : list Request) :
  refreshed w t k n cs cs' reqs ->
  Forall (fun c => age t c <= minutes 10) cs'.
Proof.
  induction 1 as [ n | n c cs cs' reqs Hs _ IH | n c d cs cs' reqs _ _ _ _ IH ];
    constructor; try exact IH.
  - unfold stale in Hs. apply Z.ltb_ge in Hs. exact Hs.
  - unfold age, refreshed_city, minutes. cbn [created_datetime]. lia.
Qed.

End Failure.

(** X10.  A refresh that fails does not undo what it has done: when the
    entries before [c] have been refreshed and the fetch for the stale
    entry [c] fails, [update_cities_cache] raises the exception of that
    fetch, the entries before [c] keep their new readings, and [c] and
    the entries after it are as they were. *)
Theorem refresh_stops_at_failure (w : World) (s : State)
    (pre pre' : list City) (reqs : list Request) (c : City)
    (rest : list City) (e : exn) :
  cache s = pre ++ c :: rest ->
  refreshed w (clock w (ticks s)) (key s) (List.length (sent s))
            pre pre' reqs ->
  stale (clock w (ticks s)) c = true ->
  whitespace_only (city_name c) = false ->
  weather_outcome
    (weather_endpoint w (List.length (sent s) + List.length reqs)
                      (lat c) (lon c) (key s)) = Raise e ->
  update_cities_cache w s
  = (Raise e,
     with_cache s (pre' ++ c :: rest) (S (ticks s))
       (sent s ++ reqs ++ [refresh_request (key s) c])).
Proof.
  intros Hc Hr Hs Hn Ho. unfold update_cities_cache.
  unfold bind at 1, datetime_now at 1.
  unfold bind at 1, get_cities at 1. cbn [self ticks sent].
  set (s1 := mkState (self s) (S (ticks s)) (sent s)).
  change (cities (self s)) with (cache s). rewrite Hc.
  pose proof (update_cities_loop_stops w _ _ _ _ _ _ Hr [] s1 c rest e
                eq_refl eq_refl Hc Hs (is_valid_parameter_nonblank _ Hn) Ho)
    as H.
  cbn [List.length app] in H. rewrite H. reflexivity.
Qed.

Lemma refresh_stops_at_failure_witness :
  update_cities_cache flaky
    (client [entry "Paris" 0; entry "Rome" 0; entry "Oslo" 0] POLLING)
  = (Raise RuntimeError_failed_weather,
     with_cache
       (client [entry "Paris" 0; entry "Rome" 0; entry "Oslo" 0] POLLING)
       ([refreshed_city (entry "Paris" 0) reading (minutes 11)]
          ++ entry "Rome" 0 :: [entry "Oslo" 0])
       1
       ([] ++ [refresh_request "key" (entry "Paris" 0)]
           ++ [refresh_request "key" (entry "Rome" 0)])).
Proof.
  apply (refresh_stops_at_failure flaky
           (client [entry "Paris" 0; entry "Rome" 0; entry "Oslo" 0] POLLING)
           [entry "Paris" 0]
           [refreshed_city (entry "Paris" 0) reading (minutes 11)]
           [refresh_request "key" (entry "Paris" 0)]
           (entry "Rome" 0) [entry "Oslo" 0] RuntimeError_failed_weather).
  - reflexivity.
  - apply refreshed_fetch; [reflexivity | reflexivity | reflexivity |].
    apply refreshed_nil.
  - reflexivity.
  - reflexivity.
  - reflexivity.
Defined.

(** X11.  A refresh that goes through returns; afterwards no cached
    entry is older than ten minutes at the time the refresh has read,
    and the requests [update_cities_cache] has added to the log are the
    refresh requests of the entries that were older than ten minutes,
    one for each and in the order of the cache. *)
Theorem refresh_leaves_nothing_stale (w : World) (s : State)
    (cs' : list City) (reqs : list Request) :
  refreshed w (clock w (ticks s)) (key s) (List.length (sent s))
            (cache s) cs' reqs ->
  fst (update_cities_cache w s) = Ret tt
  /\ cache (snd (update_cities_cache w s)) = cs'
  /\ Forall (fun c => age (clock w (ticks s)) c <= minutes 10)
            (cache (snd (update_cities_cache w s)))
  /\ sent (snd (update_cities_cache w s))
     = sent s ++ map (refresh_request (key s))
                     (filter (stale (clock w (ticks s))) (cache s))
  /\ List.length (sent (snd (update_cities_cache w s)))
     = (List.length (sent s)
        + List.length (filter (stale (clock w (ticks s))) (cache s)))%nat.
Proof.
  intros Hr. rewrite (update_cities_cache_ok w s cs' reqs Hr).
  cbn [fst snd]. unfold cache at 1 2, with_cache. cbn [self cities sent].
  rewrite (refreshed_requests w _ _ _ _ _ _ Hr).
  split; [reflexivity|]. split; [reflexivity|]. split.
  - exact (refreshed_not_stale w _ _ _ _ _ _ Hr).
  - split; [reflexivity|]. rewrite length_app, length_map. reflexivity.
Qed.

Lemma refresh_leaves_nothing_stale_witness :
  fst (update_cities_cache calm
         (client [entry "Rome" (minutes 5); entry "Paris" 0] POLLING))
  = Ret tt
  /\ cache (snd (update_cities_cache calm
                   (client [entry "Rome" (minutes 5); entry "Paris" 0]
                           POLLING)))
     = [entry "Rome" (minutes 5);
        refreshed_city (entry "Paris" 0) reading (minutes 11)]
  /\ Forall (fun c => age (minutes 11 + 0) c <= minutes 10)
            (cache (snd (update_cities_cache calm
                           (client [entry "Rome" (minutes 5); entry "Paris" 0]
                                   POLLING))))
  /\ sent (snd (update_cities_cache calm
                  (client [entry "Rome" (minutes 5); entry "Paris" 0]
                          POLLING)))
     = [] ++ map (refresh_request "key")
                 (filter (stale (minutes 11 + 0))
                         [entry "Rome" (minutes 5); entry "Paris" 0])
  /\ List.length
       (sent (snd (update_cities_cache calm
                     (client [entry "Rome" (minutes 5); entry "Paris" 0]
                             POLLING))))
     = Nat.add 0
         (List.length
            (filter (stale (minutes 11 + 0))
                    [entry "Rome" (minutes 5); entry "Paris" 0])).
Proof.
  apply (refresh_leaves_nothing_stale calm
           (client [entry "Rome" (minutes 5); entry "Paris" 0] POLLING)
           [entry "Rome" (minutes 5);
            refreshed_city (entry "Paris" 0) reading (minutes 11)]
           [refresh_request "key" (entry "Paris" 0)]).
  apply refreshed_keep; [reflexivity|].
  apply refreshed_fetch; [reflexivity | reflexivity | reflexivity |].
  apply refreshed_nil.
Defined.

(** ** More on the call *)

(** X12.  When the geocoder knows no place of that name, the cache
    holding no entry for it less than ten minutes old,
    [get_and_cache_weather_city] returns the empty dictionary.  From
    the state the polling refresh, if any, has left, it sends the
    geocoding request and nothing else, and it leaves the cache as it
    is: no entry is added in either mode, and in on-demand mode, where
    that state is the state of the call, the call sends no weather
    request at all and the cache is the one it found. *)
Theorem unknown_city_caches_nothing (w : World) (name : string)
    (s s1 : State) :
  whitespace_only name = false ->
  lookup_state w s = (Ret tt, s1) ->
  (forall c, In c (cache s1) -> city_name c = name ->
             fresh (clock w (ticks s1)) c = false) ->
  geo_endpoint w (List.length (sent s1)) name (key s1)
  = Response 200 (Some GeoNoMatch) ->
  get_and_cache_weather_city w name s
  = (Ret empty_dict,
     with_cache s1 (cache s1) (S (ticks s1))
       (sent s1 ++ [GeoRequest name (key s1)]))
  /\ List.length (cache (snd (get_and_cache_weather_city w name s)))
     = List.length (cache s)
  /\ (mode s = ON_DEMAND ->
      get_and_cache_weather_city w name s
      = (Ret empty_dict,
         with_cache s (cache s) (S (ticks s))
           (sent s ++ [GeoRequest name (key s)]))).
Proof.
  intros Hn Hs Hf Hg.
  pose proof (is_valid_parameter_nonblank _ Hn) as Hv.
  assert (Hrun : get_and_cache_weather_city w name s
                 = (Ret empty_dict,
                    with_cache s1 (cache s1) (S (ticks s1))
                      (sent s1 ++ [GeoRequest name (key s1)]))).
  { rewrite (get_via_lookup_state w _ _ Hv), Hs.
    apply find_name_fresh_none in Hf.
    rewrite (lookup_miss w _ _ Hv Hf). cbv zeta. rewrite Hg. reflexivity. }
  split; [exact Hrun|]. split.
  - rewrite Hrun. cbn [snd]. unfold cache at 1, with_cache.
    cbn [self cities].
    pose proof (lookup_state_length w s) as Hl. rewrite Hs in Hl. exact Hl.
  - intros Hm. rewrite Hrun.
    unfold lookup_state in Hs. rewrite Hm in Hs. cbn [Behaviors_eqb] in Hs.
    injection Hs as <-. reflexivity.
Qed.

(** In polling mode: the refresh fetches the reading of the stale
    entry for Paris, and the call for Atlantis adds the geocoding
    request and nothing else. *)
Lemma unknown_city_caches_nothing_witness :
  get_and_cache_weather_city nowhere "Atlantis"
    (client [entry "Paris" 0] POLLING)
  = (Ret empty_dict,
     mkState
       (mkWeatherApi "key"
          [refreshed_city (entry "Paris" 0) reading (minutes 11)] POLLING)
       2
       ([refresh_request "key" (entry "Paris" 0)]
          ++ [GeoRequest "Atlantis" "key"]))
  /\ List.length
       (cache (snd (get_and_cache_weather_city nowhere "Atlantis"
                      (client [entry "Paris" 0] POLLING))))
     = List.length (cache (client [entry "Paris" 0] POLLING))
  /\ (mode (client [entry "Paris" 0] POLLING) = ON_DEMAND ->
      get_and_cache_weather_city nowhere "Atlantis"
        (client [entry "Paris" 0] POLLING)
      = (Ret empty_dict,
         with_cache (client [entry "Paris" 0] POLLING)
           (cache (client [entry "Paris" 0] POLLING)) 1
           (sent (client [entry "Paris" 0] POLLING)
              ++ [GeoRequest "Atlantis" "key"]))).
Proof.
  apply (unknown_city_caches_nothing nowhere "Atlantis"
           (client [entry "Paris" 0] POLLING)
           (mkState
              (mkWeatherApi "key"
                 [refreshed_city (entry "Paris" 0) reading (minutes 11)]
                 POLLING)
              1 [refresh_request "key" (entry "Paris" 0)])).
  - reflexivity.
  - vm_compute. reflexivity.
  - intros c [<- | []] Hc. discriminate Hc.
  - reflexivity.
Defined.

(** An entry that passes the test of the second loop passes the test
    of the first, made with the same time. *)
Lemma coords_test_implies_name_test (name : string) (x y : float)
    (t : datetime) (c : City) :
  name_coords_fresh name x y t c = true -> name_fresh name t c = true.
Proof.
  unfold name_coords_fresh, name_fresh. rewrite !andb_true_iff. tauto.
Qed.

(** X13.  The second loop of [get_and_cache_weather_city] never returns
    a cached reading.  Once the first loop has found no entry for the
    name less than ten minutes old and the geocoder has given
    coordinates, the call always goes on to the weather request for
    those coordinates, whatever the cache holds, an entry with that name
    and those coordinates included; and what it returns or raises is
    what the weather fetch and the insertion give. *)
Theorem coordinates_check_never_hits (w : World) (name : string)
    (s s1 : State) (x y : float) :
  whitespace_only name = false ->
  lookup_state w s = (Ret tt, s1) ->
  (forall c, In c (cache s1) -> city_name c = name ->
             fresh (clock w (ticks s1)) c = false) ->
  geo_endpoint w (List.length (sent s1)) name (key s1)
  = Response 200 (Some (GeoMatch x y)) ->
  sent (snd (get_and_cache_weather_city w name s))
  = sent s1 ++ [GeoRequest name (key s1); WeatherRequest y x (key s1)]
  /\ fst (get_and_cache_weather_city w name s)
     = match weather_outcome
               (weather_endpoint w (S (List.length (sent s1))) y x (key s1))
       with
       | Ret d => if (9 <? List.length (cache s1))%nat
                  then Raise ValueError_not_in_list else Ret d
       | Raise e => Raise e
       end.
Proof.
  intros Hn Hs Hf Hg.
  pose proof (is_valid_parameter_nonblank _ Hn) as Hv.
  rewrite (get_via_lookup_state w _ _ Hv), Hs.
  apply find_name_fresh_none in Hf.
  rewrite (lookup_miss w _ _ Hv Hf). cbv zeta. rewrite Hg.
  cbn [geo_outcome Z.eqb Pos.eqb].
  destruct (weather_outcome _) as [d|e]; [|split; reflexivity].
  destruct (9 <? List.length (cache s1))%nat; split; reflexivity.
Qed.

(** The cached entry for Paris has the very coordinates the geocoder
    gives, and is eleven minutes old: the weather request is sent. *)
Lemma coordinates_check_never_hits_witness :
  sent (snd (get_and_cache_weather_city calm "Paris"
               (client [entry "Paris" 0] ON_DEMAND)))
  = sent (client [entry "Paris" 0] ON_DEMAND)
      ++ [GeoRequest "Paris" "key";
          WeatherRequest 48.75%float 2.5%float "key"]
  /\ fst (get_and_cache_weather_city calm "Paris"
            (client [entry "Paris" 0] ON_DEMAND))
     = match weather_outcome
               (weather_endpoint calm 1 48.75%float 2.5%float "key")
       with
       | Ret d => if Nat.ltb 9 (List.length
                                  (cache (client [entry "Paris" 0] ON_DEMAND)))
                  then Raise ValueError_not_in_list else Ret d
       | Raise e => Raise e
       end.
Proof.
  apply (coordinates_check_never_hits calm "Paris"
           (client [entry "Paris" 0] ON_DEMAND)
           (client [entry "Paris" 0] ON_DEMAND) 2.5%float 48.75%float).
  - reflexivity.
  - reflexivity.
  - intros c [<- | []] _. vm_compute. reflexivity.
  - reflexivity.
Defined.

Section Eviction.

Variable w : World.

Lemma get_cache_on_demand (name : string) (s : State) :
  mode s = ON_DEMAND ->
  (cache (snd (get_and_cache_weather_city w name s)) = cache s
   \/ exists c,
        cache (snd (get_and_cache_weather_city w name s)) = cache s ++ [c]
        /\ city_name c = name
        /\ fst (get_and_cache_weather_city w name s) = Ret (weather_data c))
  /\ (forall e, fst (get_and_cache_weather_city w name s) = Raise e ->
                cache (snd (get_and_cache_weather_city w name s)) = cache s).
Proof.
  intros Hm.
  destruct (is_valid_parameter_cases name) as [Hv|Hv].
  - rewrite (get_on_demand w _ _ Hv Hm).
    destruct (lookup_or_fetch_effect w name s Hv)
      as (cs' & n' & more & Hst & _ & _ & Hc & He).
    rewrite Hst. unfold cache at 1 3 4, with_cache. cbn [self cities].
    split.
    + destruct Hc as [-> | (c & -> & Hn & Hr)]; [left; reflexivity|].
      right. exists c. auto.
    + intros e H. exact (proj1 (He e H)).
  - rewrite (get_blank w _ _ Hv). cbn [snd]. split; [left; reflexivity|].
    reflexivity.
Qed.

End Eviction.



Section Hits.

Variable w : World.

Lemma find_first (f : City -> bool) (l1 : list City) (c : City)
    (l2 : list City) :
  (forall c', In c' l1 -> f c' = false) -> f c = true ->
  find f (l1 ++ c :: l2) = Some c.
Proof.
  intros H1 Hc. rewrite find_over_app.
  replace (find f l1) with (@None City).
  - cbn [find]. rewrite Hc. reflexivity.
  - symmetry. induction l1 as [|a l1 IH]; [reflexivity|].
    cbn [find]. rewrite (H1 a (or_introl eq_refl)).
    apply IH. intros c' Hin. apply H1. right. exact Hin.
Qed.

Lemma lookup_first_fresh (C : string) (s : State) (l1 : list City)
    (c : City) (l2 : list City) :
  cache s = l1 ++ c :: l2 ->
  city_name c = C ->
  fresh (clock w (ticks s)) c = true ->
  (forall c', In c' l1 -> city_name c' = C ->
              fresh (clock w (ticks s)) c' = false) ->
  lookup_or_fetch w C s
  = (Ret (weather_data c), with_cache s (cache s) (S (ticks s)) (sent s)).
Proof.
  intros Hc Hn Hf Hl1. apply lookup_hit. rewrite Hc. apply find_first.
  - intros c' Hin. rewrite name_fresh_test. unfold named.
    destruct (String.eqb_spec (city_name c') C) as [E|E]; [|reflexivity].
    cbn. apply Hl1; assumption.
  - rewrite name_fresh_test. unfold named. rewrite Hn, String.eqb_refl.
    exact Hf.
Qed.

End Hits.

(** X15.  A call in on-demand mode for a city that has an entry less
    than ten minutes old returns the reading of the first such entry in
    the cache; it reads the clock once, sends nothing and leaves the
    cache as it is. *)
Theorem served_entry_is_first_fresh (w : World) (C : string) (s : State)
    (l1 : list City) (c : City) (l2 : list City) :
  mode s = ON_DEMAND ->
  whitespace_only C = false ->
  cache s = l1 ++ c :: l2 ->
  city_name c = C ->
  age (clock w (ticks s)) c < minutes 10 ->
  (forall c', In c' l1 -> city_name c' = C ->
              minutes 10 <= age (clock w (ticks s)) c') ->
  get_and_cache_weather_city w C s
  = (Ret (weather_data c), with_cache s (cache s) (S (ticks s)) (sent s)).
Proof.
  intros Hm Hn Hc Hc' Ha Hl1.
  rewrite (get_on_demand w _ _ (is_valid_parameter_nonblank _ Hn) Hm).
  apply (lookup_first_fresh w C s l1 c l2 Hc Hc').
  - unfold fresh. apply Z.ltb_lt. exact Ha.
  - intros c' Hin Hn'. unfold fresh. apply Z.ltb_ge. apply Hl1; assumption.
Qed.

Lemma served_entry_is_first_fresh_witness :
  get_and_cache_weather_city calm "Paris"
    (client [entry "Rome" (minutes 5); entry "Paris" 0;
             mkCity "Paris" 48.75%float 2.5%float reading (minutes 5)]
            ON_DEMAND)
  = (Ret reading,
     with_cache
       (client [entry "Rome" (minutes 5); entry "Paris" 0;
                mkCity "Paris" 48.75%float 2.5%float reading (minutes 5)]
               ON_DEMAND)
       [entry "Rome" (minutes 5); entry "Paris" 0;
        mkCity "Paris" 48.75%float 2.5%float reading (minutes 5)]
       1 []).
Proof.
  apply (served_entry_is_first_fresh calm "Paris"
           (client [entry "Rome" (minutes 5); entry "Paris" 0;
                    mkCity "Paris" 48.75%float 2.5%float reading (minutes 5)]
                   ON_DEMAND)
           [entry "Rome" (minutes 5); entry "Paris" 0]
           (mkCity "Paris" 48.75%float 2.5%float reading (minutes 5)) []).
  - reflexivity.
  - reflexivity.
  - reflexivity.
  - reflexivity.
  - vm_compute. reflexivity.
  - intros c' [<- | [<- | []]] Hn; [discriminate Hn|].
    vm_compute. discriminate.
Defined.

(** X16.  In polling mode a stale entry for the requested city is
    refreshed where it is and then served: when the refresh goes
    through and leaves, as first entry for the city that is less than
    ten minutes old at the time of the lookup, the entry [c], the call
    returns the reading of [c], sends the requests of the refresh and no
    other, and the cache has as many entries as before. *)
Theorem polling_serves_refreshed_entry (w : World) (C : string)
    (s : State) (cs1 : list City) (reqs : list Request)
    (l1 : list City) (c : City) (l2 : list City) :
  mode s = POLLING ->
  whitespace_only C = false ->
  refreshed w (clock w (ticks s)) (key s) (List.length (sent s))
            (cache s) cs1 reqs ->
  cs1 = l1 ++ c :: l2 ->
  city_name c = C ->
  age (clock w (S (ticks s))) c < minutes 10 ->
  (forall c', In c' l1 -> city_name c' = C ->
              minutes 10 <= age (clock w (S (ticks s))) c') ->
  get_and_cache_weather_city w C s
  = (Ret (weather_data c),
     with_cache s cs1 (S (S (ticks s))) (sent s ++ reqs))
  /\ List.length cs1 = List.length (cache s).
Proof.
  intros Hm Hn Hr Hcs Hc Ha Hl1.
  pose proof (is_valid_parameter_nonblank _ Hn) as Hv.
  split.
  - rewrite (get_polling w _ _ Hv Hm), (update_cities_cache_ok w s cs1 reqs Hr).
    set (s1 := with_cache s cs1 (S (ticks s)) (sent s ++ reqs)).
    rewrite (lookup_first_fresh w C s1 l1 c l2); try assumption.
    + reflexivity.
    + unfold fresh. apply Z.ltb_lt. exact Ha.
    + intros c' Hin Hn'. unfold fresh. apply Z.ltb_ge. apply Hl1; assumption.
  - pose proof (update_cities_cache_length w s) as Hl.
    rewrite (update_cities_cache_ok w s cs1 reqs Hr) in Hl. symmetry.
    exact (eq_sym Hl).
Qed.

Lemma polling_serves_refreshed_entry_witness :
  get_and_cache_weather_city calm "Paris" (client [entry "Paris" 0] POLLING)
  = (Ret (weather_data (refreshed_city (entry "Paris" 0) reading (minutes 11))),
     with_cache (client [entry "Paris" 0] POLLING)
       [refreshed_city (entry "Paris" 0) reading (minutes 11)] 2
       ([] ++ [refresh_request "key" (entry "Paris" 0)]))
  /\ List.length [refreshed_city (entry "Paris" 0) reading (minutes 11)]
     = List.length (cache (client [entry "Paris" 0] POLLING)).
Proof.
  apply (polling_serves_refreshed_entry calm "Paris"
           (client [entry "Paris" 0] POLLING)
           [refreshed_city (entry "Paris" 0) reading (minutes 11)]
           [refresh_request "key" (entry "Paris" 0)]
           [] (refreshed_city (entry "Paris" 0) reading (minutes 11)) []).
  - reflexivity.
  - reflexivity.
  - apply refreshed_fetch; [reflexivity | reflexivity | reflexivity |].
    apply refreshed_nil.
  - reflexivity.
  - reflexivity.
  - vm_compute. reflexivity.
  - intros c' [].
Defined.

(** ** More on removal *)

Lemma filter_twice {A} (f : A -> bool) (l : list A) :
  filter f (filter f l) = filter f l.
Proof.
  induction l as [|a l IH]; cbn; [reflexivity|].
  destruct (f a) eqn:E; cbn; [rewrite E, IH; reflexivity | exact IH].
Qed.

Lemma filter_swap {A} (f g : A -> bool) (l : list A) :
  filter f (filter g l) = filter g (filter f l).
Proof.
  induction l as [|a l IH]; cbn; [reflexivity|].
  destruct (f a) eqn:Ef, (g a) eqn:Eg; cbn; rewrite ?Ef, ?Eg, IH; reflexivity.
Qed.

Lemma filter_all {A} (f : A -> bool) (l : list A) :
  (forall a, In a l -> f a = true) -> filter f l = l.
Proof.
  induction l as [|a l IH]; intros H; cbn; [reflexivity|].
  rewrite (H a (or_introl eq_refl)), IH; [reflexivity|].
  intros b Hb. apply H. right. exact Hb.
Qed.

Lemma remove_cache (X : string) (s : State) :
  cache (snd (remove_city_by_name X s))
  = filter (fun city => negb (String.eqb (city_name city) X)) (cache s).
Proof. reflexivity. Qed.

(** X17.  In on-demand mode, a call for [X] followed by the removal of
    [X] leaves the cache the removal alone would have left, however the
    call has ended. *)
Theorem get_then_remove (w : World) (X : string) (s : State) :
  mode s = ON_DEMAND ->
  cache (snd (remove_city_by_name X
                (snd (get_and_cache_weather_city w X s))))
  = cache (snd (remove_city_by_name X s)).
Proof.
  intros Hm. rewrite !remove_cache.
  destruct (proj1 (get_cache_on_demand w X s Hm)) as [H | (c & H & Hc & _)];
    rewrite H; [reflexivity|].
  rewrite filter_app. cbn [filter]. rewrite Hc, String.eqb_refl. cbn.
  apply app_nil_r.
Qed.

Lemma get_then_remove_witness :
  cache (snd (remove_city_by_name "London"
                (snd (get_and_cache_weather_city calm "London"
                        (client [] ON_DEMAND)))))
  = cache (snd (remove_city_by_name "London" (client [] ON_DEMAND))).
Proof.
  apply (get_then_remove calm "London" (client [] ON_DEMAND)).
  reflexivity.
Defined.

(** X18.  Removing a city that has no entry is no error:
    [remove_city_by_name] returns and the state is the state it
    found. *)
Theorem remove_absent_city (X : string) (s : State) :
  (forall c, In c (cache s) -> city_name c <> X) ->
  remove_city_by_name X s = (Ret tt, s).
Proof.
  intros H. unfold remove_city_by_name, bind, get_cities, set_cities.
  rewrite filter_all.
  - destruct s as [[k cs b] n l]. reflexivity.
  - intros c Hin. apply negb_true_iff, String.eqb_neq, H, Hin.
Qed.

Lemma remove_absent_city_witness :
  remove_city_by_name "Kyoto" (client ten_cities POLLING)
  = (Ret tt, client ten_cities POLLING).
Proof.
  apply (remove_absent_city "Kyoto" (client ten_cities POLLING)).
  intros c Hin. vm_compute in Hin.
  repeat (destruct Hin as [<- | Hin]; [discriminate|]).
  destruct Hin.
Defined.

(** X19.  Removing a city twice is removing it once, and two removals
    can be made in either order. *)
Theorem remove_twice_and_swap (X Y : string) (s : State) :
  snd (remove_city_by_name X (snd (remove_city_by_name X s)))
  = snd (remove_city_by_name X s)
  /\ snd (remove_city_by_name X (snd (remove_city_by_name Y s)))
     = snd (remove_city_by_name Y (snd (remove_city_by_name X s))).
Proof.
  unfold remove_city_by_name, bind, get_cities, set_cities.
  cbn [snd self cities api_key behavior ticks sent]. split.
  - rewrite filter_twice. reflexivity.
  - rewrite filter_swap. reflexivity.
Qed.

(** ** The registry *)

Lemma remove_addr_none (a : nat) (l : list nat) :
  remove_addr a l = None <-> ~ In a l.
Proof.
  induction l as [|b r IH]; cbn.
  - tauto.
  - destruct (Nat.eqb_spec b a) as [->|Hn].
    + split; [discriminate | intros H; exfalso; apply H; left; reflexivity].
    + destruct (remove_addr a r) as [l'|]; cbn.
      * split; [discriminate|]. intros H. exfalso.
        assert (Hr : ~ In a r) by (intros Hin; apply H; right; exact Hin).
        apply IH in Hr. discriminate.
      * split; [|reflexivity]. intros _ [H|H]; [contradiction|].
        exact (proj1 IH eq_refl H).
Qed.

Lemma remove_addr_some (a : nat) (l l' : list nat) :
  remove_addr a l = Some l' ->
  exists l1 l2, l = l1 ++ a :: l2 /\ l' = l1 ++ l2 /\ ~ In a l1.
Proof.
  revert l'. induction l as [|b r IH]; intros l'; cbn; [discriminate|].
  destruct (Nat.eqb_spec b a) as [->|Hn].
  - intros H. injection H as <-. exists [], r. cbn. auto.
  - destruct (remove_addr a r) as [r'|]; cbn; [|discriminate].
    intros H. injection H as <-.
    destruct (IH r' eq_refl) as (l1 & l2 & -> & -> & Hin).
    exists (b :: l1), l2. cbn. repeat split.
    intros [H|H]; [contradiction | exact (Hin H)].
Qed.

Lemma remove_addr_snoc (a : nat) (l : list nat) :
  ~ In a l -> remove_addr a (l ++ [a]) = Some l.
Proof.
  induction l as [|b r IH]; intros H; cbn.
  - rewrite Nat.eqb_refl. reflexivity.
  - destruct (Nat.eqb_spec b a) as [->|Hn].
    + exfalso. apply H. left. reflexivity.
    + rewrite IH; [reflexivity|]. intros Hin. apply H. right. exact Hin.
Qed.

Lemma NoDup_snoc {A} (l : list A) (x : A) :
  NoDup l -> ~ In x l -> NoDup (l ++ [x]).
Proof.
  induction 1 as [|a l Ha _ IH]; intros Hx; cbn.
  - constructor; [intros [] | constructor].
  - constructor.
    + intros Hin. apply in_app_or in Hin as [Hin | [-> | []]].
      * exact (Ha Hin).
      * apply Hx. left. reflexivity.
    + apply IH. intros Hin. apply Hx. right. exact Hin.
Qed.

Lemma NoDup_map_eq {A B} (f : A -> B) (l : list A) (a b : A) :
  NoDup (map f l) -> In a l -> In b l -> f a = f b -> a = b.
Proof.
  induction l as [|c l IH]; cbn; intros Hn Ha Hb Hf; [contradiction|].
  inversion Hn as [|x xs Hc Hn']; subst.
  destruct Ha as [-> | Ha], Hb as [-> | Hb].
  - reflexivity.
  - exfalso. apply Hc. rewrite Hf. apply in_map, Hb.
  - exfalso. apply Hc. rewrite <- Hf. apply in_map, Ha.
  - apply IH; assumption.
Qed.

Lemma nth_error_list_set_eq {A} (i : nat) (x : A) (l : list A) :
  (i < List.length l)%nat -> nth_error (list_set i x l) i = Some x.
Proof.
  revert i. induction l as [|a l IH]; intros i H; cbn in H; [lia|].
  destruct i as [|i]; cbn; [reflexivity|]. apply IH. lia.
Qed.

Lemma nth_error_list_set_neq {A} (i j : nat) (x : A) (l : list A) :
  i <> j -> nth_error (list_set i x l) j = nth_error l j.
Proof.
  revert i j. induction l as [|a l IH]; intros i j H.
  - destruct i; reflexivity.
  - destruct i as [|i], j as [|j]; cbn; try reflexivity; try contradiction.
    apply IH. lia.
Qed.

Lemma registered_key_of (p : Process) (k : string) :
  well_formed p ->
  (registered p k <-> In k (map (key_of p) (weather_api_cache p))).
Proof.
  intros Hw. unfold registered, key_of. split.
  - intros (a & o & Hin & Hn & Hk). apply in_map_iff. exists a.
    rewrite Hn. auto.
  - intros Hin. apply in_map_iff in Hin as (a & Hk & Hin).
    pose proof (proj1 (Forall_forall _ _) Hw a Hin) as Hlt.
    cbv beta in Hlt.
    destruct (nth_error (heap p) a) as [o|] eqn:E.
    + exists a, o. auto.
    + apply nth_error_None in E. lia.
Qed.

Lemma key_of_extended (p : Process) (o : WeatherApi) (l : list nat)
    (a : nat) :
  (a < List.length (heap p))%nat ->
  key_of (mkProcess (heap p ++ [o]) l) a = key_of p a.
Proof.
  intros H. unfold key_of. cbn [heap].
  rewrite nth_error_app1 by exact H. reflexivity.
Qed.

Lemma init_fresh_run (k : string) (b : Behaviors) (p : Process) :
  ~ registered p k ->
  __init__ k b p
  = (Ret (List.length (heap p)),
     mkProcess (heap p ++ [mkWeatherApi k [] b])
               (weather_api_cache p ++ [List.length (heap p)])).
Proof.
  intros Hn. unfold __init__.
  destruct (existsb (has_api_key p k) (weather_api_cache p)) eqn:E;
    [|reflexivity].
  apply existsb_has_api_key in E. contradiction.
Qed.

Lemma well_formed_fresh (p : Process) :
  well_formed p -> ~ In (List.length (heap p)) (weather_api_cache p).
Proof.
  intros Hw Hin. pose proof (proj1 (Forall_forall _ _) Hw _ Hin) as H.
  cbv beta in H. lia.
Qed.

(** X20.  The registry keeps its two properties, that its addresses are
    those of clients and that no two registered clients have the same
    key, through [__init__] and through
    [delete_weather_api_cache_obj], whether they return or raise. *)
Theorem registry_keys_stay_unique (k : string) (b : Behaviors) (a : nat)
    (p : Process) :
  well_formed p -> unique_keys p ->
  (well_formed (snd (__init__ k b p)) /\ unique_keys (snd (__init__ k b p)))
  /\ (well_formed (snd (delete_weather_api_cache_obj a p))
      /\ unique_keys (snd (delete_weather_api_cache_obj a p))).
Proof.
  intros Hw Hu. split.
  - unfold __init__.
    destruct (existsb (has_api_key p k) (weather_api_cache p)) eqn:E;
      cbn [snd]; [auto|].
    assert (Hn : ~ registered p k).
    { intros H. apply existsb_has_api_key in H. congruence. }
    assert (Hmap : map (key_of (mkProcess (heap p ++ [mkWeatherApi k [] b])
                          (weather_api_cache p ++ [List.length (heap p)])))
                       (weather_api_cache p)
                   = map (key_of p) (weather_api_cache p)).
    { apply map_ext_in. intros a' Hin. apply key_of_extended.
      exact (proj1 (Forall_forall _ _) Hw a' Hin). }
    split.
    + unfold well_formed. cbn [heap weather_api_cache].
      rewrite length_snoc. apply Forall_app. split.
      * eapply Forall_impl; [|exact Hw]. cbn. intros; lia.
      * constructor; [lia | constructor].
    + unfold unique_keys. cbn [weather_api_cache].
      rewrite map_app, Hmap. cbn [map].
      replace (key_of _ (List.length (heap p))) with k.
      * apply NoDup_snoc; [exact Hu|].
        intros Hin. apply Hn. apply registered_key_of; assumption.
      * unfold key_of. cbn [heap].
        rewrite nth_error_app2, Nat.sub_diag by lia. reflexivity.
  - unfold delete_weather_api_cache_obj.
    destruct (remove_addr a (weather_api_cache p)) as [l|] eqn:E;
      cbn [snd]; [|auto].
    destruct (remove_addr_some _ _ _ E) as (l1 & l2 & H1 & -> & _).
    unfold well_formed, unique_keys in *. cbn [heap weather_api_cache].
    rewrite H1 in Hw, Hu. split.
    + apply Forall_app in Hw as [Hw1 Hw2]. apply Forall_app.
      split; [exact Hw1 | exact (Forall_inv_tail Hw2)].
    + change (key_of {| heap := heap p; weather_api_cache := l1 ++ l2 |})
        with (key_of p).
      rewrite map_app in *. cbn [map] in Hu.
      exact (NoDup_remove_1 _ _ _ Hu).
Qed.

Lemma registry_keys_stay_unique_witness :
  (well_formed (snd (__init__ "third" POLLING two_clients))
   /\ unique_keys (snd (__init__ "third" POLLING two_clients)))
  /\ (well_formed (snd (delete_weather_api_cache_obj 0 two_clients))
      /\ unique_keys (snd (delete_weather_api_cache_obj 0 two_clients))).
Proof.
  apply (registry_keys_stay_unique "third" POLLING 0 two_clients).
  - repeat constructor.
  - repeat constructor; cbn; intuition discriminate.
Defined.

(** X21.  [delete_weather_api_cache_obj] on a client that is not in the
    registry raises the ValueError of [list.remove] and changes nothing;
    on a registered client it returns, takes one address out of the
    registry and leaves the clients as they are. *)
Theorem delete_registered_or_not (a : nat) (p : Process) :
  (~ In a (weather_api_cache p) ->
   delete_weather_api_cache_obj a p = (Raise ValueError_not_in_list, p))
  /\ (In a (weather_api_cache p) ->
      exists l1 l2,
        weather_api_cache p = l1 ++ a :: l2 /\ ~ In a l1
        /\ delete_weather_api_cache_obj a p
           = (Ret tt, mkProcess (heap p) (l1 ++ l2))).
Proof.
  unfold delete_weather_api_cache_obj. split.
  - intros H. apply remove_addr_none in H. rewrite H. reflexivity.
  - intros H.
    destruct (remove_addr a (weather_api_cache p)) as [l|] eqn:E.
    + destruct (remove_addr_some _ _ _ E) as (l1 & l2 & H1 & -> & Hn).
      exists l1, l2. auto.
    + apply remove_addr_none in E. contradiction.
Qed.

Lemma delete_registered_or_not_witness :
  delete_weather_api_cache_obj 5 two_clients
  = (Raise ValueError_not_in_list, two_clients)
  /\ exists l1 l2,
       weather_api_cache two_clients = l1 ++ 1%nat :: l2 /\ ~ In 1%nat l1
       /\ delete_weather_api_cache_obj 1 two_clients
          = (Ret tt, mkProcess (heap two_clients) (l1 ++ l2)).
Proof.
  split.
  - apply (proj1 (delete_registered_or_not 5 two_clients)).
    cbn. intuition discriminate.
  - apply (proj2 (delete_registered_or_not 1 two_clients)).
    cbn. auto.
Defined.

(** X22.  Deleting a registered client frees its key: in a registry with
    unique keys, once the client is deleted no registered client has its
    key, and a client can be constructed with that key. *)
Theorem delete_frees_key (a : nat) (b : Behaviors) (p : Process) :
  well_formed p -> unique_keys p ->
  In a (weather_api_cache p) ->
  ~ registered (snd (delete_weather_api_cache_obj a p)) (key_of p a)
  /\ exists a' p',
       __init__ (key_of p a) b (snd (delete_weather_api_cache_obj a p))
       = (Ret a', p').
Proof.
  intros Hw Hu Hin.
  assert (Hn : ~ registered (snd (delete_weather_api_cache_obj a p))
                 (key_of p a)).
  { unfold delete_weather_api_cache_obj.
    destruct (remove_addr a (weather_api_cache p)) as [l|] eqn:E.
    - destruct (remove_addr_some _ _ _ E) as (l1 & l2 & H1 & -> & _).
      cbn [snd]. unfold unique_keys in Hu. rewrite H1, map_app in Hu.
      cbn [map] in Hu. apply NoDup_remove_2 in Hu.
      intros (a' & o & Hin' & Hnth & Hk). apply Hu.
      cbn [heap weather_api_cache] in *.
      rewrite <- map_app. apply in_map_iff. exists a'.
      split; [|exact Hin']. unfold key_of at 1. rewrite Hnth. exact Hk.
    - apply remove_addr_none in E. contradiction. }
  split; [exact Hn|].
  rewrite (init_fresh_run _ b _ Hn). eauto.
Qed.

Lemma delete_frees_key_witness :
  ~ registered (snd (delete_weather_api_cache_obj 0 two_clients))
      (key_of two_clients 0)
  /\ exists a' p',
       __init__ (key_of two_clients 0) POLLING
         (snd (delete_weather_api_cache_obj 0 two_clients))
       = (Ret a', p').
Proof.
  apply (delete_frees_key 0 POLLING two_clients).
  - repeat constructor.
  - repeat constructor; cbn; intuition discriminate.
  - left. reflexivity.
Defined.

(** X23.  Constructing a client and deleting it gives the registry
    back: with a key no registered client has, [__init__] returns a
    client, [delete_weather_api_cache_obj] on that client returns, the
    registry is the one before the construction, and the key is free
    again. *)
Theorem init_then_delete (k : string) (b : Behaviors) (p : Process) :
  well_formed p -> ~ registered p k ->
  exists a p1 p2,
    __init__ k b p = (Ret a, p1)
    /\ delete_weather_api_cache_obj a p1 = (Ret tt, p2)
    /\ weather_api_cache p2 = weather_api_cache p
    /\ ~ registered p2 k.
Proof.
  intros Hw Hn. rewrite (init_fresh_run k b p Hn).
  eexists _, _, _. split; [reflexivity|].
  unfold delete_weather_api_cache_obj. cbn [weather_api_cache heap].
  rewrite (remove_addr_snoc _ _ (well_formed_fresh p Hw)).
  split; [reflexivity|]. cbn [weather_api_cache]. split; [reflexivity|].
  intros (a' & o & Hin & Hnth & Hk). cbn [heap weather_api_cache] in *.
  apply Hn. exists a', o. split; [exact Hin|]. split; [|exact Hk].
  rewrite nth_error_app1 in Hnth; [exact Hnth|].
  exact (proj1 (Forall_forall _ _) Hw a' Hin).
Qed.

Lemma init_then_delete_witness :
  exists a p1 p2,
    __init__ "third" POLLING two_clients = (Ret a, p1)
    /\ delete_weather_api_cache_obj a p1 = (Ret tt, p2)
    /\ weather_api_cache p2 = weather_api_cache two_clients
    /\ ~ registered p2 "third".
Proof.
  apply (init_then_delete "third" POLLING two_clients).
  - repeat constructor.
  - intros (a & o & Hin & Hn & Hk). cbn in Hin.
    destruct Hin as [<- | [<- | []]]; cbn in Hn; injection Hn as <-;
      discriminate Hk.
Defined.

(** X24.  The setter of [api_key] checks nothing: giving a registered
    client the key of another registered client goes through, leaves the
    registry as it is, and leaves two registered clients with the same
    key. *)
Theorem api_key_setter_unchecked (a b : nat) (p : Process) :
  well_formed p ->
  In a (weather_api_cache p) -> In b (weather_api_cache p) -> a <> b ->
  weather_api_cache (api_key_setter a (key_of p b) p) = weather_api_cache p
  /\ key_of (api_key_setter a (key_of p b) p) a = key_of p b
  /\ key_of (api_key_setter a (key_of p b) p) b = key_of p b
  /\ ~ unique_keys (api_key_setter a (key_of p b) p).
Proof.
  intros Hw Ha Hb Hab.
  pose proof (proj1 (Forall_forall _ _) Hw a Ha) as Hlt.
  cbv beta in Hlt. unfold api_key_setter.
  destruct (nth_error (heap p) a) as [o|] eqn:E;
    [| apply nth_error_None in E; lia].
  set (p' := mkProcess _ _).
  assert (Hka : key_of p' a = key_of p b).
  { unfold key_of at 1, p'. cbn [heap].
    rewrite nth_error_list_set_eq by exact Hlt. reflexivity. }
  assert (Hkb : key_of p' b = key_of p b).
  { unfold key_of at 1, p'. cbn [heap].
    rewrite nth_error_list_set_neq by exact Hab. reflexivity. }
  split; [reflexivity|]. split; [exact Hka|]. split; [exact Hkb|].
  intros Hu. apply Hab.
  apply (NoDup_map_eq (key_of p') (weather_api_cache p) a b Hu Ha Hb).
  congruence.
Qed.

Lemma api_key_setter_unchecked_witness :
  weather_api_cache (api_key_setter 0 (key_of two_clients 1) two_clients)
  = weather_api_cache two_clients
  /\ key_of (api_key_setter 0 (key_of two_clients 1) two_clients) 0
     = key_of two_clients 1
  /\ key_of (api_key_setter 0 (key_of two_clients 1) two_clients) 1
     = key_of two_clients 1
  /\ ~ unique_keys (api_key_setter 0 (key_of two_clients 1) two_clients).
Proof.
  apply (api_key_setter_unchecked 0 1 two_clients).
  - repeat constructor.
  - left. reflexivity.
  - right. left. reflexivity.
  - discriminate.
Defined.

(** ** A full cache *)


